(** * Spidersuite: the crawl orchestrator of [lib/Crawler.js]

  A shallow embedding of [lib/Crawler.js] and of the parts of its
  collaborators (lodash, cheerio, the simplecrawler engine, Node's
  timers) that the orchestrator relies on, followed by the properties
  of the link/anchor verification pipeline. *)

From Stdlib Require Import ZArith Ascii String.
From stdpp Require Import base option list gmap strings pretty.

Local Open Scope string_scope.

(** ** JavaScript values and truthiness *)

Module Js.

(** The primitive values that flow through the configuration. *)
Inductive Value :=
| Undefined
| Bool (b : bool)
| Num (z : Z)
| Str (s : string).

#[global] Instance Value_eq_dec : EqDecision Value.
Proof. solve_decision. Defined.

Definition stringTruthy (s : string) : bool :=
  match s with EmptyString => false | String _ _ => true end.

(** [ToBoolean]. *)
Definition truthy (v : Value) : bool :=
  match v with
  | Undefined => false
  | Bool b => b
  | Num z => negb (Z.eqb z 0)
  | Str s => stringTruthy s
  end.

(** A nullable string property, as [url.parse] produces them. *)
Definition optTruthy (o : option string) : bool :=
  match o with None => false | Some s => stringTruthy s end.

(** Outcome of a statement sequence: normal completion or [throw]. *)
Inductive Completion (A : Type) :=
| Normal (a : A)
| Throw (message : string).
Arguments Normal {A} a.
Arguments Throw {A} message.

(** [String.prototype.indexOf(p) === 0]. *)
Fixpoint startsWith (p s : string) : bool :=
  match p, s with
  | EmptyString, _ => true
  | String a p', String b s' => if Ascii.eqb a b then startsWith p' s' else false
  | String _ _, EmptyString => false
  end.

(** Case folding of the [i] flag; only ASCII letters fold onto ASCII. *)
Definition foldCase (c : ascii) : ascii :=
  let n := nat_of_ascii c in
  if (65 <=? n)%nat && (n <=? 90)%nat then ascii_of_nat (n + 32) else c.

Fixpoint startsWithCI (p s : string) : bool :=
  match p, s with
  | EmptyString, _ => true
  | String a p', String b s' =>
      if Ascii.eqb (foldCase a) (foldCase b) then startsWithCI p' s' else false
  | String _ _, EmptyString => false
  end.

(** [/lit/i.test(s)] for a literal pattern: an unanchored search. *)
Fixpoint testLiteralCI (lit s : string) : bool :=
  startsWithCI lit s
  || match s with
     | EmptyString => false
     | String _ s' => testLiteralCI lit s'
     end.

(** [s.replace(/lit/g, '')] for a literal pattern: matches are found
    left to right and do not overlap; [skip] counts the characters of
    the current match that remain to be dropped. *)
Fixpoint removeLiteralFrom (lit : string) (skip : nat) (s : string) : string :=
  match s with
  | EmptyString => EmptyString
  | String c s' =>
      match skip with
      | S k => removeLiteralFrom lit k s'
      | O =>
          if stringTruthy lit && startsWith lit s
          then removeLiteralFrom lit (String.length lit - 1) s'
          else String c (removeLiteralFrom lit 0 s')
      end
  end.

Definition removeLiteral (lit s : string) : string := removeLiteralFrom lit 0 s.

(** A plain object, given by its own enumerable properties. The keys of
    an object are distinct. *)
Definition Object := list (string * Value).

(** [object[key]]: the value of the property, [undefined] when the
    object has no such property. *)
Definition get (object : Object) (key : string) : Value :=
  match List.find (fun kv => String.eqb (fst kv) key) object with
  | Some kv => snd kv
  | None => Undefined
  end.

End Js.

(** ** lodash: [_.uniq], [_.shuffle] and [_.forEach] *)

Module Lodash.
Section Lists.
Context {A : Type} `{EqDecision A}.

(** [baseUniq]: a value is kept when it is not among those already
    seen, so the first occurrence of each value survives, in order. *)
Fixpoint baseUniq (seen l : list A) : list A :=
  match l with
  | [] => []
  | x :: l' =>
      if bool_decide (x ∈ seen) then baseUniq seen l'
      else x :: baseUniq (x :: seen) l'
  end.

Definition uniq (l : list A) : list A := baseUniq [] l.

(** [baseRandom(lower, upper)]: [lower + floor(random * (upper - lower + 1))].
    The raw draw [r] stands for the value of [Math.random()]. *)
Definition baseRandom (r lower upper : nat) : nat :=
  lower + r mod (upper - lower + 1).

(** The loop of [shuffleSelf]: at [index] draw [rand] in
    [index .. lastIndex] and exchange the two cells. [rnd k] is the
    [k]-th value drawn from [Math.random]. *)
Fixpoint shuffleSelf (rnd : nat → nat) (steps index : nat) (array : list A) : list A :=
  match steps with
  | O => array
  | S steps' =>
      let rand := baseRandom (rnd index) index (length array - 1) in
      match array !! rand, array !! index with
      | Some value, Some other =>
          shuffleSelf rnd steps' (S index) (<[index := value]> (<[rand := other]> array))
      | _, _ => array
      end
  end.

Definition shuffle (rnd : nat → nat) (collection : list A) : list A :=
  shuffleSelf rnd (length collection) 0 collection.

End Lists.

Definition MAX_SAFE_INTEGER : Z := 9007199254740991.

(** [isLength]: a number that is an integer above [-1] and not above
    [MAX_SAFE_INTEGER]. A [Js.Num] carries an integer. *)
Definition isLength (value : Js.Value) : bool :=
  match value with
  | Js.Num z => (-1 <? z)%Z && (z <=? MAX_SAFE_INTEGER)%Z
  | _ => false
  end.

(** [isArrayLike] on an object: its [length] property is a length. *)
Definition isArrayLike (collection : Js.Object) : bool :=
  isLength (Js.get collection "length").

(** The [length] that the loop of [baseEach] reads off an array-like
    collection. *)
Definition lengthOf (collection : Js.Object) : nat :=
  match Js.get collection "length" with
  | Js.Num z => Z.to_nat z
  | _ => 0
  end.

(** [_.forEach(collection, iteratee)] on an object, for an iteratee
    that never returns [false] and acts on a state. An array-like
    object is visited by index, from [0] up to its [length], and the
    iteratee receives [collection[index]] with the index, which names
    the property [String(index)]; the other properties of the object
    are not visited. Any other object is visited property by property. *)
Definition forEach {State : Type} (collection : Js.Object)
    (iteratee : Js.Value → string → State → State) (s : State) : State :=
  if isArrayLike collection then
    foldl (fun s index => iteratee (Js.get collection (pretty index)) (pretty index) s)
          s (seq 0 (lengthOf collection))
  else
    foldl (fun s kv => iteratee (snd kv) (fst kv) s) s collection.

End Lodash.

(** ** cheerio: the document tree and the selectors the crawler uses *)

Module Cheerio.

#[local] Unset Elimination Schemes.

Inductive Node :=
| Text (data : string)
| Element (tag : string) (attribs : list (string * string)) (children : list Node).

#[local] Set Elimination Schemes.

(** A loaded document is the list of children of its root. *)
Definition Document := list Node.

Definition attr (name : string) (attribs : list (string * string)) : option string :=
  snd <$> List.find (fun kv => String.eqb (fst kv) name) attribs.

Definition nonContentTag (tag : string) : bool :=
  String.eqb tag "pre" || String.eqb tag "code" || String.eqb tag "svg".

(** [$('pre,code,svg').remove()]: every matching element leaves the
    tree together with its subtree. *)
Fixpoint removeNonContent (n : Node) : list Node :=
  match n with
  | Text d => [Text d]
  | Element tag attribs children =>
      if nonContentTag tag then []
      else [Element tag attribs (children ≫= removeNonContent)]
  end.

Definition remove (doc : Document) : Document :=
  doc ≫= removeNonContent.

(** [$('a[href]')] with [.attr('href')] of each match, in document order. *)
Fixpoint anchorHrefsOf (n : Node) : list string :=
  match n with
  | Text _ => []
  | Element tag attribs children =>
      (if String.eqb tag "a"
       then match attr "href" attribs with Some h => [h] | None => [] end
       else [])
      ++ (children ≫= anchorHrefsOf)
  end.

Definition anchorHrefs (doc : Document) : list string :=
  doc ≫= anchorHrefsOf.

Definition hiddenHere (n : Node) : bool :=
  match n with
  | Text _ => false
  | Element tag _ _ => nonContentTag tag
  end.

(** [Occurs hidden root n]: the node [n] occurs in the tree rooted at
    [root]; [hidden] tells whether [n] or one of its ancestors up to
    [root] is a [pre], [code] or [svg] element. *)
Inductive Occurs : bool → Node → Node → Prop :=
| occurs_here n : Occurs (hiddenHere n) n n
| occurs_below tag attribs children child hidden n :
    child ∈ children →
    Occurs hidden child n →
    Occurs (nonContentTag tag || hidden) (Element tag attribs children) n.

Definition OccursIn (hidden : bool) (doc : Document) (n : Node) : Prop :=
  ∃ root, root ∈ doc ∧ Occurs hidden root n.

End Cheerio.

(** ** HashProcessor: the declared-hash ledger *)

Module HashProcessor.

(** Modelled from the spec: the extraction done by
    [HashProcessor.findSupportedHashes], whose source is not part of
    [lib/Crawler.js]. Every element with an [id] or a [name] attribute
    declares that identifier. *)
Fixpoint declaredBy (n : Cheerio.Node) : list string :=
  match n with
  | Cheerio.Text _ => []
  | Cheerio.Element _ attribs children =>
      match Cheerio.attr "id" attribs with Some i => [i] | None => [] end
      ++ match Cheerio.attr "name" attribs with Some i => [i] | None => [] end
      ++ (children ≫= declaredBy)
  end.

(** Modelled from the spec: the identifiers [findSupportedHashes]
    finds in a whole document. *)
Definition supportedHashes (doc : Cheerio.Document) : list string :=
  doc ≫= declaredBy.

(** Modelled from the spec: the declared-hash ledger maps a page URL to
    the identifiers declared on that page; [findSupportedHashes] adds the
    identifiers of the document it is given under the page's URL. *)
Definition declare (pageUrl : string) (ids : list string)
    (ledger : gmap string (gset string)) : gmap string (gset string) :=
  <[pageUrl := list_to_set ids ∪ default ∅ (ledger !! pageUrl)]> ledger.

End HashProcessor.

(** ** HtmlValidator: what a failed title check reports *)

Module HtmlValidator.

Record Failure (Pattern : Type) := {
  titlePattern : Pattern;
  titleText : string;
}.
Arguments titlePattern {Pattern} _.
Arguments titleText {Pattern} _.

End HtmlValidator.

(** ** The process, the collaborators and the engine, as the crawler sees them *)

Module Crawler.

Record StateData := { contentType : string }.

Record QueueItem := {
  url : string;
  host : string;
  stateData : StateData;
}.

(** The result of Node's [url.parse]. *)
Record UrlObject := {
  protocol : option string;
  hostname : option string;
  port : option string;
  path : option string;
}.

Definition Timer := nat.

(** Every call the orchestrator makes on one of its collaborators (the
    terminal cursor, the hash processor, the error handler, the logger,
    Node's timers, the engine), with the arguments it passes. *)
Inductive Call :=
| CursorWrite (text : string)
| SetInterval (handle : Timer) (ms : Z)
| ClearInterval (handle : Timer)
| NewSimplecrawler (seed : string)
| QueueURL (relativePath : string)
| Start
| FindSupportedHashes (pageUrl : string) (doc : Cheerio.Document)
| RegisterExpectedHash (href : string) (source : QueueItem)
| OldDiscoverResources (content : string) (item : QueueItem)
| FindErrors
| GetTitleValidationFailure (doc : Cheerio.Document)
| HandleTitleError (pageUrl msg : string)
| HandleFetchServerError (code : Z) (item : QueueItem)
| HandleFetchError (item : QueueItem) (kind : string)
| HandleFetchClientError (item : QueueItem) (kind error : string)
| HandleQueueError (error urlData : string)
| LogIgnore (item : QueueItem)
| LogSuccess (item : QueueItem)
| RegisterLink (source : string) (target : option string)
| LogRedirect (item : QueueItem) (redirectURL : string)
| LogDisallowed (pageUrl : string)
| Report.

(** The state of the Node process the module runs in. [spooledReportTimer]
    is the module-level [let] of [Crawler.js]; [timers] are the intervals
    Node currently has armed. *)
Record World := {
  spooledReportTimer : option Timer;
  timers : gset Timer;
  nextTimer : Timer;
  tlsDefaultCiphers : option string;
  env : gmap string string;
  exitCode : option Z;
  calls : list Call;
}.

Definition initialWorld : World :=
  {| spooledReportTimer := None; timers := ∅; nextTimer := 0;
     tlsDefaultCiphers := None; env := ∅; exitCode := None; calls := [] |}.

(** *** A state-and-exception monad over the process state *)

Definition M (A : Type) : Type := World → Js.Completion A * World.

Definition ret {A} (a : A) : M A := fun w => (Js.Normal a, w).

Definition bind {A B} (m : M A) (k : A → M B) : M B :=
  fun w =>
    match m w with
    | (Js.Normal a, w') => k a w'
    | (Js.Throw e, w') => (Js.Throw e, w')
    end.

Definition throw {A} (message : string) : M A := fun w => (Js.Throw message, w).

Notation "x <- m ;; k" := (bind m (fun x => k))
  (at level 100, m at next level, right associativity).
Notation "m ;;; k" := (bind m (fun _ => k))
  (at level 100, right associativity).

Definition modify (f : World → World) : M unit := fun w => (Js.Normal tt, f w).

Definition get {A} (f : World → A) : M A := fun w => (Js.Normal (f w), w).

Definition appendCalls (cs : list Call) (w : World) : World :=
  {| spooledReportTimer := spooledReportTimer w; timers := timers w;
     nextTimer := nextTimer w; tlsDefaultCiphers := tlsDefaultCiphers w;
     env := env w; exitCode := exitCode w; calls := calls w ++ cs |}.

Arguments appendCalls : simpl never.

Definition record (c : Call) (w : World) : World := appendCalls [c] w.

Definition call (c : Call) : M unit := modify (record c).

Definition when (b : bool) (m : M unit) : M unit := if b then m else ret tt.

(** [_.forEach] over an array with a callback that returns nothing. *)
Fixpoint forEach {A} (l : list A) (f : A → M unit) : M unit :=
  match l with
  | [] => ret tt
  | x :: l' => f x ;;; forEach l' f
  end.

(** [setInterval]: Node arms a fresh interval and hands back its handle.
    What the interval does when it fires (it prints the spooled queue
    items) is not modelled; only whether it is armed. *)
Definition armInterval (ms : Z) (w : World) : World :=
  {| spooledReportTimer := spooledReportTimer w;
     timers := {[nextTimer w]} ∪ timers w;
     nextTimer := S (nextTimer w); tlsDefaultCiphers := tlsDefaultCiphers w;
     env := env w; exitCode := exitCode w;
     calls := calls w ++ [SetInterval (nextTimer w) ms] |}.

Definition setInterval (ms : Z) : M Timer :=
  fun w => (Js.Normal (nextTimer w), armInterval ms w).

(** [clearInterval]: the interval, if still armed, is disarmed. *)
Definition disarmInterval (t : Timer) (w : World) : World :=
  {| spooledReportTimer := spooledReportTimer w;
     timers := timers w ∖ {[t]};
     nextTimer := nextTimer w; tlsDefaultCiphers := tlsDefaultCiphers w;
     env := env w; exitCode := exitCode w;
     calls := calls w ++ [ClearInterval t] |}.

Definition clearInterval (t : Timer) : M unit := modify (disarmInterval t).

Definition setSpooledReportTimer (t : Timer) (w : World) : World :=
  {| spooledReportTimer := Some t; timers := timers w;
     nextTimer := nextTimer w; tlsDefaultCiphers := tlsDefaultCiphers w;
     env := env w; exitCode := exitCode w; calls := calls w |}.

Definition setTlsDefaultCiphers (c : string) (w : World) : World :=
  {| spooledReportTimer := spooledReportTimer w; timers := timers w;
     nextTimer := nextTimer w; tlsDefaultCiphers := Some c;
     env := env w; exitCode := exitCode w; calls := calls w |}.

Definition setEnv (k v : string) (w : World) : World :=
  {| spooledReportTimer := spooledReportTimer w; timers := timers w;
     nextTimer := nextTimer w; tlsDefaultCiphers := tlsDefaultCiphers w;
     env := <[k := v]> (env w); exitCode := exitCode w; calls := calls w |}.

Definition setExitCode (z : Z) (w : World) : World :=
  {| spooledReportTimer := spooledReportTimer w; timers := timers w;
     nextTimer := nextTimer w; tlsDefaultCiphers := tlsDefaultCiphers w;
     env := env w; exitCode := Some z; calls := calls w |}.

(** The simplecrawler instance: its plain properties ([crawler.host] and
    whatever the configuration injects) and its fetch conditions. *)
Record Engine := {
  props : gmap string Js.Value;
  fetchConditions : list (QueueItem → M bool);
}.

Definition setProp (k : string) (v : Js.Value) (c : Engine) : Engine :=
  {| props := <[k := v]> (props c); fetchConditions := fetchConditions c |}.

Definition addFetchCondition (f : QueueItem → M bool) (c : Engine) : Engine :=
  {| props := props c; fetchConditions := fetchConditions c ++ [f] |}.

(** The engine queues a candidate only when every installed fetch
    condition lets it through. *)
Fixpoint allowedBy (conds : list (QueueItem → M bool)) (item : QueueItem) : M bool :=
  match conds with
  | [] => ret true
  | f :: conds' =>
      ok <- f item ;;
      if ok then allowedBy conds' item else ret false
  end.

(** Modelled from the spec: the declared-hash ledger the hash processor
    ([lib/HashProcessor], not part of [lib/Crawler.js]) holds after a
    history of calls; only [findSupportedHashes] adds to it. *)
Definition declaredLedger (history : list Call) : gmap string (gset string) :=
  foldl (fun ledger c =>
           match c with
           | FindSupportedHashes pageUrl doc =>
               HashProcessor.declare pageUrl (HashProcessor.supportedHashes doc) ledger
           | _ => ledger
           end) ∅ history.

(** The identifiers the ledger holds for a page. *)
Definition declaredOn (history : list Call) (pageUrl : string) : gset string :=
  default ∅ (declaredLedger history !! pageUrl).

(** The calls made between two states of the process. *)
Definition added (before after : World) : list Call :=
  drop (length (calls before)) (calls after).

Definition isFindErrors (c : Call) : bool :=
  match c with FindErrors => true | _ => false end.

(** The calls of the title check: the validator and the error report. *)
Definition isTitleCall (c : Call) : bool :=
  match c with
  | GetTitleValidationFailure _ | HandleTitleError _ _ => true
  | _ => false
  end.

Definition nl : string := String (ascii_of_nat 10) EmptyString.

(** Interpolation of a nullable string in a template literal. *)
Definition interpolate (o : option string) : string := default "null" o.

(** The crawl configuration, over the type of configured patterns. *)
Record Config (Pattern : Type) := {
  rootUrl : option string;
  strictCiphers : bool;
  simplecrawlerConfig : option (list (string * Js.Value));
  reportSpoolInterval : Z;
  excludePatterns : option (list Pattern);
  includePatterns : option (list Pattern);
  additionalPaths : option (list string);
  titlePattern : option Pattern;
}.
Arguments rootUrl {Pattern} _.
Arguments strictCiphers {Pattern} _.
Arguments simplecrawlerConfig {Pattern} _.
Arguments reportSpoolInterval {Pattern} _.
Arguments excludePatterns {Pattern} _.
Arguments includePatterns {Pattern} _.
Arguments additionalPaths {Pattern} _.
Arguments titlePattern {Pattern} _.

(** ** A small site and simple stand-ins for the collaborators, used to
    run the orchestrator on concrete inputs *)

Module Fixture.

Import Cheerio.

Definition item (u h ct : string) : QueueItem :=
  {| url := u; host := h; stateData := {| contentType := ct |} |}.

Definition homeHtml : string :=
  "<title>Welcome</title><a href='https://external.example/page#frag'>out</a><pre><a id='sample' href='/hidden#x'>in</a></pre>".

Definition homeDoc : Document :=
  [ Element "title" [] [Text "Welcome"];
    Element "a" [("href", "https://external.example/page#frag")] [Text "out"];
    Element "pre" []
      [Element "a" [("id", "sample"); ("href", "/hidden#x")] [Text "in"]] ].

Definition externalHtml : string :=
  "<h2 id='frag'>x</h2><a href='https://elsewhere.example/#top'>t</a>".

Definition externalDoc : Document :=
  [ Element "h2" [("id", "frag")] [Text "x"];
    Element "a" [("href", "https://elsewhere.example/#top")] [Text "t"] ].

Definition load (s : string) : Document :=
  if String.eqb s homeHtml then homeDoc
  else if String.eqb s externalHtml then externalDoc
  else [].

Fixpoint htmlOf (n : Node) : string :=
  match n with
  | Text d => d
  | Element tag attribs children =>
      "<" ++ tag
      ++ String.concat "" (map (fun kv => " " ++ fst kv ++ "='" ++ snd kv ++ "'") attribs)
      ++ ">" ++ String.concat "" (map htmlOf children) ++ "</" ++ tag ++ ">"
  end.

Definition html (doc : Document) : string := String.concat "" (map htmlOf doc).

Definition parse (s : string) : UrlObject :=
  if String.eqb s "https://site.test/" then
    {| protocol := Some "https:"; hostname := Some "site.test";
       port := None; path := Some "/" |}
  else if String.eqb s "https://other.test:8443/docs" then
    {| protocol := Some "https:"; hostname := Some "other.test";
       port := Some "8443"; path := Some "/docs" |}
  else
    {| protocol := None; hostname := None; port := None; path := Some s |}.

Definition engineProps (seed : string) : gmap string Js.Value :=
  match hostname (parse seed) with
  | Some h => {[ "host" := Js.Str h ]}
  | None => ∅
  end.

Definition discovered (_ : string) (_ : QueueItem) : list string :=
  ["mailto:a@b.com"; "https://x/y"; "mailto:c@d.com"].

Fixpoint globMatch (p s : string) : bool :=
  match p with
  | EmptyString => match s with EmptyString => true | _ => false end
  | String c p' =>
      match p' with
      | EmptyString =>
          if Ascii.eqb c "*" then true
          else match s with
               | String d EmptyString => Ascii.eqb c d
               | _ => false
               end
      | _ =>
          match s with
          | String d s' => if Ascii.eqb c d then globMatch p' s' else false
          | EmptyString => false
          end
      end
  end.

Definition glob (p candidate : string) (root : option string) : bool :=
  globMatch p candidate || globMatch (default "" root ++ p) candidate.

Definition titleOf (doc : Document) : string :=
  match List.find (fun n => match n with
                            | Element tag _ _ => String.eqb tag "title"
                            | Text _ => false
                            end) doc with
  | Some (Element _ _ (Text t :: _)) => t
  | _ => ""
  end.

Definition titleFailure (configured : option string) (doc : Document)
  : option (HtmlValidator.Failure string) :=
  match configured with
  | Some p =>
      if Js.startsWith p (titleOf doc) then None
      else Some {| HtmlValidator.titlePattern := p;
                   HtmlValidator.titleText := titleOf doc |}
  | None => None
  end.

Definition isError (c : Call) : bool :=
  match c with
  | HandleTitleError _ _ | HandleFetchServerError _ _ | HandleFetchError _ _
  | HandleFetchClientError _ _ _ | HandleQueueError _ _ => true
  | _ => false
  end.

Definition exitCodeOf (history : list Call) : Z :=
  if existsb isError history then 1%Z else 0%Z.

Definition config : Config string :=
  {| rootUrl := None; strictCiphers := true; simplecrawlerConfig := None;
     reportSpoolInterval := 5000;
     excludePatterns := Some ["/private/*"];
     includePatterns := Some ["/public/*"];
     additionalPaths := Some ["/sitemap"];
     titlePattern := Some "Home" |}.

Definition plainConfig : Config string :=
  {| rootUrl := None; strictCiphers := true; simplecrawlerConfig := None;
     reportSpoolInterval := 0;
     excludePatterns := None; includePatterns := Some [];
     additionalPaths := None; titlePattern := None |}.

Definition siteEngine : Engine :=
  {| props := {[ "host" := Js.Str "site.test" ]}; fetchConditions := [] |}.

Definition firstDraw (_ : nat) : nat := 0.

Definition lastDraw (_ : nat) : nat := 1.

Definition tunedConfig : Config string :=
  {| rootUrl := None; strictCiphers := false;
     simplecrawlerConfig :=
       Some [("maxDepth", Js.Num 3); ("host", Js.Str "docs.test");
             ("ignoreInvalidSSL", Js.Bool true)];
     reportSpoolInterval := 0;
     excludePatterns := Some [""]; includePatterns := None;
     additionalPaths := Some ["/a"; "/b"]; titlePattern := None |}.

(** A matcher by prefix, for which the empty pattern matches every URL. *)
Definition byPrefix (p candidate : string) (_ : option string) : bool :=
  Js.startsWith p candidate.

Definition docsItem : QueueItem := item "https://docs.test/guide" "docs.test" "text/html".

Definition overlapConfig : Config string :=
  {| rootUrl := None; strictCiphers := true; simplecrawlerConfig := None;
     reportSpoolInterval := 0;
     excludePatterns := Some ["/docs/internal/*"];
     includePatterns := Some ["/docs/*"];
     additionalPaths := None; titlePattern := None |}.

(** Engine settings that carry a numeric [length] next to the named
    settings. *)
Definition listLikeConfig : Config string :=
  {| rootUrl := None; strictCiphers := true;
     simplecrawlerConfig :=
       Some [("length", Js.Num 2); ("maxDepth", Js.Num 3);
             ("host", Js.Str "docs.test"); ("1", Js.Str "one")];
     reportSpoolInterval := 0;
     excludePatterns := None; includePatterns := None;
     additionalPaths := None; titlePattern := None |}.

(** A page with a link in the open and one inside each of a [pre], a
    [code] and an [svg] element. *)
Definition snippetsDoc : Document :=
  [ Element "title" [] [Text "Home"];
    Element "div" [("id", "main")]
      [Element "a" [("href", "/guide#intro")] [Text "guide"]];
    Element "pre" []
      [Element "a" [("id", "in-pre"); ("href", "/pre#x")] [Text "p"]];
    Element "p" []
      [Element "code" [("id", "in-code")]
         [Element "a" [("href", "/code#y")] [Text "c"]]];
    Element "svg" []
      [Element "a" [("name", "in-svg"); ("href", "/svg#z")] [Text "s"]] ].

End Fixture.

(** ** [lib/Crawler.js] *)

Section Orchestrator.

(** A configured pattern (a glob string or a regular expression), with
    its [ToBoolean] and [ToString] conversions and the single-pattern
    test of [config/configUtil]. *)
Variable Pattern : Type.
Variable patternTruthy : Pattern → bool.
Variable patternToString : Pattern → string.
Variable patternMatches : Pattern → string → option string → bool.

(** Node and cheerio. *)
Variable Buffer : Type.
Variable toStringUtf8 : Buffer → string.
Variable cheerioLoad : string → Cheerio.Document.
Variable cheerioHtml : Cheerio.Document → string.
Variable urlParse : string → UrlObject.

(** The engine: the properties a fresh instance has for a seed URL, and
    its own resource discovery. *)
Variable simplecrawlerProps : string → gmap string Js.Value.
Variable oldDiscoverResources : string → QueueItem → list string.

(** The title validator built from [config.titlePattern], and the value
    the logger's [report()] returns after a given history of calls. *)
Variable getTitleValidationFailure :
  option Pattern → Cheerio.Document → option (HtmlValidator.Failure Pattern).
Variable loggerReport : list Call → Z.

Local Abbreviation Config := (Config Pattern).

Definition withRootUrl (r : string) (config : Config) : Config :=
  {| rootUrl := Some r; strictCiphers := strictCiphers config;
     simplecrawlerConfig := simplecrawlerConfig config;
     reportSpoolInterval := reportSpoolInterval config;
     excludePatterns := excludePatterns config;
     includePatterns := includePatterns config;
     additionalPaths := additionalPaths config;
     titlePattern := titlePattern config |}.

(** [const mailtoMatcher = /mailto:/i], applied with [.test]. *)
Definition mailtoMatcher (s : string) : bool := Js.testLiteralCI "mailto:" s.

Definition setConfigRootUrl (config : Config) (crawlerSeedUrl : UrlObject) : M Config :=
  let portString := "" in
  let protocolString :=
    if Js.optTruthy (protocol crawlerSeedUrl)
    then interpolate (protocol crawlerSeedUrl) else "https:" in
  let portString :=
    if Js.optTruthy (port crawlerSeedUrl)
    then ":" ++ interpolate (port crawlerSeedUrl) else portString in
  let config :=
    withRootUrl (protocolString ++ "//" ++ interpolate (hostname crawlerSeedUrl) ++ portString)
                config in
  call (CursorWrite ("Set config.rootUrl to " ++ interpolate (rootUrl config) ++ nl)) ;;;
  ret config.

Definition ignoreInvalidSSL (config : Config) : bool :=
  match simplecrawlerConfig config with
  | Some kvs =>
      match List.find (fun kv => String.eqb (fst kv) "ignoreInvalidSSL") kvs with
      | Some kv => Js.truthy (snd kv)
      | None => false
      end
  | None => false
  end.

Definition initTls (config : Config) : M unit :=
  when (negb (strictCiphers config))
    (modify (setTlsDefaultCiphers "ALL") ;;;
     call (CursorWrite ("Relaxing cipher list to allow any cipher." ++ nl))) ;;;
  when (ignoreInvalidSSL config)
    (modify (setEnv "NODE_TLS_REJECT_UNAUTHORIZED" "0") ;;;
     call (CursorWrite ("Ignoring invalid certificates." ++ nl))).

Definition initSpool (config : Config) (crawler : Engine) : M unit :=
  when (0 <? reportSpoolInterval config)%Z
    (call (CursorWrite ("Starting spool reporting every "
                        ++ pretty (reportSpoolInterval config) ++ " ms." ++ nl)) ;;;
     t <- setInterval (reportSpoolInterval config) ;;
     modify (setSpooledReportTimer t)).

(** Modelled from the spec: [configUtil.getFirstMatchingPattern], whose
    source is not part of [lib/Crawler.js]. It returns the first pattern,
    in configured order, that matches the candidate URL, and nothing when
    no pattern matches. *)
Definition getFirstMatchingPattern
    (patterns : list Pattern) (candidate : string) (root : option string) : option Pattern :=
  List.find (fun p => patternMatches p candidate root) patterns.

(** [ToBoolean] of what [getFirstMatchingPattern] returned. *)
Definition found (r : option Pattern) : bool :=
  match r with Some p => patternTruthy p | None => false end.

Definition nonEmpty (o : option (list Pattern)) : bool :=
  match o with Some l => (0 <? length l)%nat | None => false end.

(** The callback handed to [crawler.addFetchCondition]. *)
Definition fetchCondition (config : Config) (hasExclude hasInclude : bool)
    (parsedURL : QueueItem) : M bool :=
  let shouldFetch := true in
  let shouldFetch :=
    if hasExclude then
      let firstMatchingExcludePattern :=
        getFirstMatchingPattern (default [] (excludePatterns config))
                                (url parsedURL) (rootUrl config) in
      shouldFetch && negb (found firstMatchingExcludePattern)
    else shouldFetch in
  let shouldFetch :=
    if hasInclude then
      let firstMatchingIncludePattern :=
        getFirstMatchingPattern (default [] (includePatterns config))
                                (url parsedURL) (rootUrl config) in
      shouldFetch && found firstMatchingIncludePattern
    else shouldFetch in
  when (negb shouldFetch) (call (LogIgnore parsedURL)) ;;;
  ret shouldFetch.

Definition initIncludeExcludePatterns (config : Config) (crawler : Engine) : Engine :=
  let hasExclude := nonEmpty (excludePatterns config) in
  let hasInclude := nonEmpty (includePatterns config) in
  if hasExclude || hasInclude
  then addFetchCondition (fetchCondition config hasExclude hasInclude) crawler
  else crawler.

(** [_.forEach] returns at once on a collection that is [undefined]. *)
Definition injectCrawlerConfig (config : Config) (crawler : Engine) : Engine :=
  match simplecrawlerConfig config with
  | Some settings =>
      Lodash.forEach settings (fun value key crawler => setProp key value crawler) crawler
  | None => crawler
  end.

Definition initAdditionalPaths (config : Config) (crawler : Engine) : M unit :=
  match additionalPaths config with
  | Some paths => forEach paths (fun relativePath => call (QueueURL relativePath))
  | None => ret tt
  end.

Definition checkTitle (pageUrl : string) (configured : option Pattern)
    (doc : Cheerio.Document) : M unit :=
  call (GetTitleValidationFailure doc) ;;;
  match getTitleValidationFailure configured doc with
  | Some titleValidationFailure =>
      call (HandleTitleError pageUrl
              ("pattern: " ++ patternToString (HtmlValidator.titlePattern titleValidationFailure)
               ++ " failed on title: " ++ HtmlValidator.titleText titleValidationFailure))
  | None => ret tt
  end.

Definition titleConfigured (config : Config) : bool :=
  match titlePattern config with Some p => patternTruthy p | None => false end.

(** The function installed as [crawler.discoverResources]. A [null] in
    the returned array is [None]; [rnd] is the run of [Math.random]
    values the shuffle consumes. The engine's own discovery, saved as
    [crawler.oldDiscoverResources], is the section's
    [oldDiscoverResources]; the call and the content it is given are
    recorded too. Each collaborator is called synchronously, so
    [findSupportedHashes] is recorded with the document as it is at the
    moment of the call, before [$('pre,code,svg').remove()] changes it. *)
Definition discoverResources (config : Config) (crawler : Engine) (rnd : nat → nat)
    (buf : Buffer) (queueItem : QueueItem) : M (list (option string)) :=
  if Js.startsWith "text/html" (contentType (stateData queueItem)) then
    let strContent := toStringUtf8 buf in
    let strContent := Js.removeLiteral "URL(s)" strContent in
    let doc := cheerioLoad strContent in
    call (FindSupportedHashes (url queueItem) doc) ;;;
    if bool_decide (Some (Js.Str (host queueItem)) = props crawler !! "host") then
      when (titleConfigured config)
        (checkTitle (url queueItem) (titlePattern config) doc) ;;;
      let doc := Cheerio.remove doc in
      forEach (Cheerio.anchorHrefs doc)
        (fun href => call (RegisterExpectedHash href queueItem)) ;;;
      call (OldDiscoverResources (cheerioHtml doc) queueItem) ;;;
      let list := oldDiscoverResources (cheerioHtml doc) queueItem in
      let list :=
        (fun considerURL =>
           if mailtoMatcher considerURL then None else Some considerURL) <$> list in
      ret (Lodash.shuffle rnd (Lodash.uniq list))
    else ret []
  else ret [].

(** [new Simplecrawler(myUrl)]: a fresh engine has no fetch condition. *)
Definition newSimplecrawler (myUrl : string) : M Engine :=
  call (NewSimplecrawler myUrl) ;;;
  ret {| props := simplecrawlerProps myUrl; fetchConditions := [] |}.

(** [url.parse] always yields an object, so [!crawlerSeedUrl] is false. *)
Definition initCrawler (myUrl : string) (config : Config) : M (Engine * Config) :=
  let crawlerSeedUrl := urlParse myUrl in
  if negb (Js.optTruthy (protocol crawlerSeedUrl))
     || negb (Js.optTruthy (hostname crawlerSeedUrl))
     || negb (Js.optTruthy (path crawlerSeedUrl))
  then throw "Invalid URL."
  else
    config <- setConfigRootUrl config crawlerSeedUrl ;;
    initTls config ;;;
    crawler <- newSimplecrawler myUrl ;;
    initAdditionalPaths config crawler ;;;
    initSpool config crawler ;;;
    let crawler := injectCrawlerConfig config crawler in
    ret (crawler, config).

(** The engine's events the orchestrator listens to. *)
Inductive Event :=
| fetch404 (queueItem : QueueItem)
| fetcherror (queueItem : QueueItem)
| fetchdataerror (queueItem : QueueItem)
| gziperror (queueItem : QueueItem)
| fetchtimeout (queueItem : QueueItem)
| fetchclienterror (queueItem : QueueItem) (error : string)
| queueerror (error URLData : string)
| fetchcomplete (queueItem : QueueItem)
| discoverycomplete (queueItem : QueueItem) (resources : list (option string))
| fetchredirect (queueItem : QueueItem) (redirectURL : string)
| fetchdisallowed (queueItem : QueueItem)
| complete.

(** [logger.report()]: the call, and the value it hands back. *)
Definition report : M Z :=
  history <- get calls ;;
  call Report ;;;
  ret (loggerReport history).

(** The listener of the [complete] event. *)
Definition onComplete : M unit :=
  timer <- get spooledReportTimer ;;
  match timer with
  | Some t => clearInterval t
  | None => ret tt
  end ;;;
  call FindErrors ;;;
  code <- report ;;
  modify (setExitCode code).

(** The listeners bound by [initErrorHandlers] and [crawl]. *)
Definition on (e : Event) : M unit :=
  match e with
  | fetch404 queueItem => call (HandleFetchServerError 404 queueItem)
  | fetcherror queueItem => call (HandleFetchError queueItem "fetcherror")
  | fetchdataerror queueItem => call (HandleFetchError queueItem "fetchdataerror")
  | gziperror queueItem => call (HandleFetchError queueItem "gziperror")
  | fetchtimeout queueItem => call (HandleFetchError queueItem "fetchtimeout")
  | fetchclienterror queueItem error =>
      call (HandleFetchClientError queueItem "fetchclienterror" error)
  | queueerror error URLData => call (HandleQueueError error URLData)
  | fetchcomplete queueItem => call (LogSuccess queueItem)
  | discoverycomplete queueItem resources =>
      forEach resources (fun u => call (RegisterLink (url queueItem) u))
  | fetchredirect queueItem redirectURL => call (LogRedirect queueItem redirectURL)
  | fetchdisallowed queueItem => call (LogDisallowed (url queueItem))
  | complete => onComplete
  end.

(** What [crawl()] leaves behind: the configuration with its root URL
    and the engine with the fetch condition installed. *)
Record Run := {
  runConfig : Config;
  runEngine : Engine;
}.

Definition crawl (myUrl : string) (config : Config) : M Run :=
  started <- initCrawler myUrl config ;;
  let crawler := fst started in
  let config := snd started in
  let crawler := initIncludeExcludePatterns config crawler in
  call Start ;;;
  ret {| runConfig := config; runEngine := crawler |}.

(** Every way the engine calls back into the orchestrator during a run:
    an emitted event, the discovery override, or the fetch conditions. *)
Inductive Callback :=
| Emit (e : Event)
| Discover (rnd : nat → nat) (buf : Buffer) (queueItem : QueueItem)
| Filter (parsedURL : QueueItem).

Definition invoke (run : Run) (cb : Callback) : M unit :=
  match cb with
  | Emit e => on e
  | Discover rnd buf queueItem =>
      discoverResources (runConfig run) (runEngine run) rnd buf queueItem ;;; ret tt
  | Filter parsedURL =>
      allowedBy (fetchConditions (runEngine run)) parsedURL ;;; ret tt
  end.

(** *** Vocabulary for the statements below *)

(** The document [discoverResources] works on for a fetched buffer. *)
Definition pageOf (buf : Buffer) : Cheerio.Document :=
  cheerioLoad (Js.removeLiteral "URL(s)" (toStringUtf8 buf)).

Definition IsHtml (queueItem : QueueItem) : Prop :=
  ∃ rest, contentType (stateData queueItem) = "text/html" ++ rest.

Definition SameHost (crawler : Engine) (queueItem : QueueItem) : Prop :=
  props crawler !! "host" = Some (Js.Str (host queueItem)).

(** The calls of the title check on a document. *)
Definition titleCalls (config : Config) (queueItem : QueueItem)
    (doc : Cheerio.Document) : list Call :=
  if titleConfigured config then
    GetTitleValidationFailure doc ::
    match getTitleValidationFailure (titlePattern config) doc with
    | Some failure =>
        [HandleTitleError (url queueItem)
           ("pattern: " ++ patternToString (HtmlValidator.titlePattern failure)
            ++ " failed on title: " ++ HtmlValidator.titleText failure)]
    | None => []
    end
  else [].

(** The calls of one invocation on a same-host HTML page, in order. *)
Definition discoveryCalls (config : Config) (queueItem : QueueItem)
    (doc : Cheerio.Document) : list Call :=
  FindSupportedHashes (url queueItem) doc
  :: titleCalls config queueItem doc
  ++ ((fun href => RegisterExpectedHash href queueItem)
        <$> Cheerio.anchorHrefs (Cheerio.remove doc))
  ++ [OldDiscoverResources (cheerioHtml (Cheerio.remove doc)) queueItem].

(** The engine's candidates for a document, with every [mailto:] one
    replaced by [null]. *)
Definition candidates (queueItem : QueueItem) (doc : Cheerio.Document)
  : list (option string) :=
  (fun considerURL => if mailtoMatcher considerURL then None else Some considerURL)
    <$> oldDiscoverResources (cheerioHtml doc) queueItem.

(** Running a sequence of callbacks of one run. *)
Definition runCallbacks (run : Run) (cbs : list Callback) : M unit :=
  forEach cbs (invoke run).

Definition isComplete (cb : Callback) : bool :=
  match cb with Emit complete => true | _ => false end.

(** Running callbacks of several runs that share the process. *)
Definition runInterleaved (steps : list (Run * Callback)) : M unit :=
  forEach steps (fun step => invoke (fst step) (snd step)).

(** A nullable string property is lacking when it is absent or empty. *)
Definition Lacks (o : option string) : Prop := o = None ∨ o = Some "".

Definition LacksPart (seed : UrlObject) : Prop :=
  Lacks (protocol seed) ∨ Lacks (hostname seed) ∨ Lacks (path seed).

(** The calls that mark the life cycle of a run and of its timer, as
    opposed to the per-page calls on the hash processor, the error
    handler and the logger. *)
Definition isLifecycle (c : Call) : bool :=
  match c with
  | SetInterval _ _ | ClearInterval _ | NewSimplecrawler _ | Start
  | FindErrors | Report => true
  | _ => false
  end.

(** What the [complete] listener cancels: the interval whose handle the
    module-level variable holds at that moment, if any. *)
Definition cancelled (w : World) : list Call :=
  match spooledReportTimer w with
  | Some t => [ClearInterval t]
  | None => []
  end.

Definition stillArmed (w : World) : gset Timer :=
  match spooledReportTimer w with
  | Some t => timers w ∖ {[t]}
  | None => timers w
  end.

(** The timer state is left alone between two states of the process. *)
Definition SameTimers (w w' : World) : Prop :=
  spooledReportTimer w' = spooledReportTimer w
  ∧ timers w' = timers w
  ∧ nextTimer w' = nextTimer w.

(** The run that [crawl] sets up has at most the include/exclude fetch
    condition installed. *)
Definition OwnConditions (run : Run) : Prop :=
  fetchConditions (runEngine run) = []
  ∨ ∃ config hasExclude hasInclude,
      fetchConditions (runEngine run) = [fetchCondition config hasExclude hasInclude].

(** *** Vocabulary for the further properties *)

(** The calls [crawl] makes while it sets a run up, in order, given the
    root URL it derived and the next handle Node would hand out. *)
Definition setUpCalls (myUrl root : string) (config : Config) (t : Timer) : list Call :=
  [CursorWrite ("Set config.rootUrl to " ++ root ++ nl)]
  ++ (if strictCiphers config then []
      else [CursorWrite ("Relaxing cipher list to allow any cipher." ++ nl)])
  ++ (if ignoreInvalidSSL config
      then [CursorWrite ("Ignoring invalid certificates." ++ nl)] else [])
  ++ [NewSimplecrawler myUrl]
  ++ (QueueURL <$> default [] (additionalPaths config))
  ++ (if (0 <? reportSpoolInterval config)%Z
      then [CursorWrite ("Starting spool reporting every "
                         ++ pretty (reportSpoolInterval config) ++ " ms." ++ nl);
            SetInterval t (reportSpoolInterval config)]
      else [])
  ++ [Start].

Definition isQueueURL (c : Call) : bool :=
  match c with QueueURL _ => true | _ => false end.

Definition isSetInterval (c : Call) : bool :=
  match c with SetInterval _ _ => true | _ => false end.

(** The engine settings of a configuration; none when it has no
    [simplecrawlerConfig]. *)
Definition settingsOf (config : Config) : Js.Object :=
  default [] (simplecrawlerConfig config).

(** A property key that starts with a decimal digit, as the key of an
    array index does. *)
Definition startsWithDigit (key : string) : bool :=
  match key with
  | String c _ => (48 <=? nat_of_ascii c)%nat && (nat_of_ascii c <=? 57)%nat
  | EmptyString => false
  end.

(** The calls that report a failure to the error handler, and the
    engine events that stand for a failure. *)
Definition isErrorCall (c : Call) : bool :=
  match c with
  | HandleTitleError _ _ | HandleFetchServerError _ _ | HandleFetchError _ _
  | HandleFetchClientError _ _ _ | HandleQueueError _ _ => true
  | _ => false
  end.

Definition isErrorEvent (e : Event) : bool :=
  match e with
  | fetch404 _ | fetcherror _ | fetchdataerror _ | gziperror _ | fetchtimeout _
  | fetchclienterror _ _ | queueerror _ _ => true
  | _ => false
  end.

(** ** Facts about the library functions *)

#[local] Set Warnings "-clear-no-such-hyp".

Section LibraryFacts.
Context {A : Type} `{EqDecision A}.

Lemma startsWith_prefix (p s : string) :
  Js.startsWith p s = true ↔ ∃ rest, s = p ++ rest.
Proof.
  revert s. induction p as [|a p IH]; intros s; simpl.
  - split; [intros _; by exists s | done].
  - destruct s as [|b s].
    + split; [done | intros [rest Hrest]].
      change ("" = String a (p ++ rest)) in Hrest. discriminate.
    + destruct (Ascii.eqb_spec a b) as [->|Hne].
      * rewrite IH. split; intros [rest Hrest]; exists rest.
        -- rewrite Hrest. reflexivity.
        -- change (String b s = String b (p ++ rest)) in Hrest. congruence.
      * split; [done | intros [rest Hrest]].
        change (String b s = String a (p ++ rest)) in Hrest. congruence.
Qed.

Lemma elem_of_baseUniq (seen l : list A) (x : A) :
  x ∈ Lodash.baseUniq seen l ↔ x ∈ l ∧ x ∉ seen.
Proof.
  revert seen. induction l as [|y l IH]; intros seen; simpl.
  - set_solver.
  - case_bool_decide as Hseen.
    + rewrite IH. set_solver.
    + rewrite elem_of_cons, IH. destruct (decide (x = y)); set_solver.
Qed.

Lemma NoDup_baseUniq (seen l : list A) : NoDup (Lodash.baseUniq seen l).
Proof.
  revert seen. induction l as [|y l IH]; intros seen; simpl.
  - constructor.
  - case_bool_decide; [apply IH|].
    constructor; [|apply IH].
    rewrite elem_of_baseUniq. set_solver.
Qed.

Lemma elem_of_uniq (l : list A) (x : A) : x ∈ Lodash.uniq l ↔ x ∈ l.
Proof. unfold Lodash.uniq. rewrite elem_of_baseUniq. set_solver. Qed.

Lemma NoDup_uniq (l : list A) : NoDup (Lodash.uniq l).
Proof. apply NoDup_baseUniq. Qed.

Lemma shuffleSelf_Permutation (rnd : nat → nat) (steps index : nat) (array : list A) :
  Lodash.shuffleSelf rnd steps index array ≡ₚ array.
Proof.
  revert index array. induction steps as [|steps IH]; intros index array; simpl; [done|].
  destruct (array !! _) as [value|] eqn:Hrand; [|done].
  destruct (array !! index) as [other|] eqn:Hindex; [|done].
  rewrite IH. by apply Permutation_insert_swap.
Qed.

Lemma shuffle_Permutation (rnd : nat → nat) (l : list A) : Lodash.shuffle rnd l ≡ₚ l.
Proof. apply shuffleSelf_Permutation. Qed.

Lemma NoDup_shuffle_uniq (rnd : nat → nat) (l : list A) :
  NoDup (Lodash.shuffle rnd (Lodash.uniq l)).
Proof. rewrite shuffle_Permutation. apply NoDup_uniq. Qed.

End LibraryFacts.

(** ** Facts about the process monad *)

Lemma appendCalls_nil (w : World) : appendCalls [] w = w.
Proof. destruct w; unfold appendCalls; simpl. by rewrite app_nil_r. Qed.

Lemma appendCalls_appendCalls (cs ds : list Call) (w : World) :
  appendCalls ds (appendCalls cs w) = appendCalls (cs ++ ds) w.
Proof. unfold appendCalls; simpl. by rewrite app_assoc. Qed.

Lemma forEach_call {B} (f : B → Call) (l : list B) (w : World) :
  forEach l (fun x => call (f x)) w = (Js.Normal tt, appendCalls (f <$> l) w).
Proof.
  revert w. induction l as [|x l IH]; intros w; simpl.
  - by rewrite appendCalls_nil.
  - unfold bind at 1, call, modify, record. rewrite IH.
    by rewrite appendCalls_appendCalls.
Qed.

Lemma added_appendCalls (cs : list Call) (w : World) : added w (appendCalls cs w) = cs.
Proof. unfold added; simpl. by rewrite drop_app_length. Qed.

(** ** What one invocation of [discoverResources] does *)

Lemma checkTitle_calls (config : Config) (queueItem : QueueItem)
    (doc : Cheerio.Document) (w : World) :
  when (titleConfigured config)
       (checkTitle (url queueItem) (titlePattern config) doc) w
  = (Js.Normal tt, appendCalls (titleCalls config queueItem doc) w).
Proof.
  unfold titleCalls, when, checkTitle.
  destruct (titleConfigured config); [|by rewrite appendCalls_nil].
  unfold bind, call, modify, record, ret.
  destruct (getTitleValidationFailure _ _) as [failure|];
    by rewrite ?appendCalls_appendCalls.
Qed.

Lemma discoverResources_not_html (config : Config) (crawler : Engine) (rnd : nat → nat)
    (buf : Buffer) (queueItem : QueueItem) (w : World) :
  ¬ IsHtml queueItem →
  discoverResources config crawler rnd buf queueItem w = (Js.Normal [], w).
Proof.
  intros Hct. unfold discoverResources.
  destruct (Js.startsWith _ _) eqn:Hprefix; [|done].
  apply startsWith_prefix in Hprefix. by destruct Hct.
Qed.

Lemma discoverResources_off_host (config : Config) (crawler : Engine) (rnd : nat → nat)
    (buf : Buffer) (queueItem : QueueItem) (w : World) :
  IsHtml queueItem →
  ¬ SameHost crawler queueItem →
  discoverResources config crawler rnd buf queueItem w
  = (Js.Normal [], record (FindSupportedHashes (url queueItem) (pageOf buf)) w).
Proof.
  intros Hct Hhost. unfold discoverResources.
  apply startsWith_prefix in Hct as ->.
  unfold bind at 1, call, modify.
  rewrite bool_decide_eq_false_2; [done|].
  intros Heq. by apply Hhost.
Qed.

Lemma discoverResources_same_host (config : Config) (crawler : Engine) (rnd : nat → nat)
    (buf : Buffer) (queueItem : QueueItem) (w : World) :
  IsHtml queueItem →
  SameHost crawler queueItem →
  discoverResources config crawler rnd buf queueItem w
  = (Js.Normal (Lodash.shuffle rnd
                  (Lodash.uniq (candidates queueItem (Cheerio.remove (pageOf buf))))),
     appendCalls (discoveryCalls config queueItem (pageOf buf)) w).
Proof.
  intros Hct Hhost. unfold discoverResources.
  apply startsWith_prefix in Hct as ->.
  unfold bind at 1, call, modify.
  rewrite bool_decide_eq_true_2 by done.
  unfold bind at 1. fold (pageOf buf). rewrite checkTitle_calls.
  unfold bind at 1.
  rewrite (forEach_call (fun href => RegisterExpectedHash href queueItem)).
  unfold bind at 1, record, ret, discoveryCalls.
  by rewrite !appendCalls_appendCalls.
Qed.

(** ** Facts about document trees *)

Lemma Node_children_ind (P : Cheerio.Node → Prop) :
  (∀ d, P (Cheerio.Text d)) →
  (∀ tag attribs children,
     Forall P children → P (Cheerio.Element tag attribs children)) →
  ∀ n, P n.
Proof.
  intros HText HElement. fix IH 1. intros [d|tag attribs children].
  - apply HText.
  - apply HElement. induction children as [|c children IHc]; constructor.
    + apply IH.
    + apply IHc.
Qed.

(** An identifier is declared by a tree exactly when some element of the
    tree, hidden or not, carries it as [id] or [name]. *)
Lemma declaredBy_Occurs (root : Cheerio.Node) (i : string) :
  i ∈ HashProcessor.declaredBy root ↔
  ∃ hidden tag attribs children,
    Cheerio.Occurs hidden root (Cheerio.Element tag attribs children)
    ∧ (Cheerio.attr "id" attribs = Some i ∨ Cheerio.attr "name" attribs = Some i).
Proof.
  split.
  - induction root as [d|tag attribs children IH] using Node_children_ind; simpl.
    + by intros ?%elem_of_nil.
    + rewrite !elem_of_app, list_elem_of_bind.
      intros [Hid|[Hname|(child & Hi & Hchild)]].
      * exists (Cheerio.nonContentTag tag), tag, attribs, children. split.
        -- apply (Cheerio.occurs_here (Cheerio.Element tag attribs children)).
        -- left. destruct (Cheerio.attr "id" attribs); set_solver.
      * exists (Cheerio.nonContentTag tag), tag, attribs, children. split.
        -- apply (Cheerio.occurs_here (Cheerio.Element tag attribs children)).
        -- right. destruct (Cheerio.attr "name" attribs); set_solver.
      * rewrite Forall_forall in IH.
        destruct (IH child Hchild Hi) as (hidden & t & a & c & Hocc & Hattr).
        exists (Cheerio.nonContentTag tag || hidden), t, a, c. split; [|done].
        by eapply Cheerio.occurs_below.
  - intros (hidden & tag & attribs & children & Hocc & Hattr).
    remember (Cheerio.Element tag attribs children) as n eqn:Hn.
    induction Hocc as [n|tag' attribs' children' child hidden n Hchild Hocc IH].
    + subst n. simpl. rewrite !elem_of_app.
      destruct Hattr as [->| ->]; set_solver.
    + simpl. rewrite !elem_of_app, list_elem_of_bind. right; right.
      exists child. split; [by apply IH | done].
Qed.

Lemma supportedHashes_OccursIn (doc : Cheerio.Document) (i : string) :
  i ∈ HashProcessor.supportedHashes doc ↔
  ∃ hidden tag attribs children,
    Cheerio.OccursIn hidden doc (Cheerio.Element tag attribs children)
    ∧ (Cheerio.attr "id" attribs = Some i ∨ Cheerio.attr "name" attribs = Some i).
Proof.
  unfold HashProcessor.supportedHashes, Cheerio.OccursIn.
  rewrite list_elem_of_bind. setoid_rewrite declaredBy_Occurs.
  naive_solver.
Qed.

Lemma visible_anchor_survives (hidden : bool) (root n : Cheerio.Node)
    (attribs : list (string * string)) (children : list Cheerio.Node) (h : string) :
  Cheerio.Occurs hidden root n →
  hidden = false →
  n = Cheerio.Element "a" attribs children →
  Cheerio.attr "href" attribs = Some h →
  h ∈ Cheerio.removeNonContent root ≫= Cheerio.anchorHrefsOf.
Proof.
  intros Hocc.
  induction Hocc as [n|tag' attribs' children' child hidden n Hchild Hocc IH];
    intros Hhidden Hn Hattr.
  - subst n. simpl. rewrite app_nil_r, Hattr. set_solver.
  - apply orb_false_iff in Hhidden as [Htag ->]. simpl. rewrite Htag. simpl.
    rewrite app_nil_r, elem_of_app. right.
    specialize (IH eq_refl Hn Hattr).
    apply list_elem_of_bind in IH as (pruned & Hh & Hpruned).
    apply list_elem_of_bind. exists pruned. split; [done|].
    apply list_elem_of_bind. eauto.
Qed.

(** An href is selected in the pruned tree exactly when the original
    tree has an [a] element carrying it outside every [pre], [code] and
    [svg] subtree. *)
Lemma anchorHrefsOf_removeNonContent (root : Cheerio.Node) (h : string) :
  h ∈ Cheerio.removeNonContent root ≫= Cheerio.anchorHrefsOf ↔
  ∃ attribs children,
    Cheerio.Occurs false root (Cheerio.Element "a" attribs children)
    ∧ Cheerio.attr "href" attribs = Some h.
Proof.
  split.
  - induction root as [d|tag attribs children IH] using Node_children_ind; simpl.
    + by intros ?%elem_of_nil.
    + destruct (Cheerio.nonContentTag tag) eqn:Htag; simpl; [by intros ?%elem_of_nil|].
      rewrite app_nil_r, elem_of_app, !list_elem_of_bind.
      intros [Hhere|(pruned & Hh & (child & Hpruned & Hchild)%list_elem_of_bind)].
      * destruct (String.eqb_spec tag "a") as [->|]; [|by apply elem_of_nil in Hhere].
        destruct (Cheerio.attr "href" attribs) as [h'|] eqn:Hattr;
          [|by apply elem_of_nil in Hhere].
        apply list_elem_of_singleton in Hhere as ->.
        exists attribs, children. split; [|done].
        apply (Cheerio.occurs_here (Cheerio.Element "a" attribs children)).
      * rewrite Forall_forall in IH.
        destruct (IH child Hchild) as (a & c & Hocc & Hattr).
        { apply list_elem_of_bind. eauto. }
        exists a, c. split; [|done].
        pose proof (Cheerio.occurs_below tag attribs children child false _ Hchild Hocc)
          as Hbelow.
        by rewrite Htag in Hbelow.
  - intros (attribs & children & Hocc & Hattr).
    by eapply visible_anchor_survives.
Qed.

Lemma anchorHrefs_remove (doc : Cheerio.Document) (h : string) :
  h ∈ Cheerio.anchorHrefs (Cheerio.remove doc) ↔
  ∃ attribs children,
    Cheerio.OccursIn false doc (Cheerio.Element "a" attribs children)
    ∧ Cheerio.attr "href" attribs = Some h.
Proof.
  unfold Cheerio.anchorHrefs, Cheerio.remove, Cheerio.OccursIn.
  rewrite list_elem_of_bind. split.
  - intros (pruned & Hh & (root & Hpruned & Hroot)%list_elem_of_bind).
    destruct (proj1 (anchorHrefsOf_removeNonContent root h)) as (a & c & Hocc & Hattr).
    { apply list_elem_of_bind. eauto. }
    eauto 6.
  - intros (a & c & (root & Hroot & Hocc) & Hattr).
    assert (h ∈ Cheerio.removeNonContent root ≫= Cheerio.anchorHrefsOf) as Hin.
    { apply anchorHrefsOf_removeNonContent. eauto. }
    apply list_elem_of_bind in Hin as (pruned & Hh & Hpruned).
    exists pruned. split; [done|]. apply list_elem_of_bind. eauto.
Qed.

(** Nothing of a [pre], [code] or [svg] subtree is left in the pruned
    tree: each of its nodes is what pruning leaves of a node that was
    not hidden in the original. *)
Lemma removeNonContent_Occurs (root pruned n : Cheerio.Node) (hidden : bool) :
  pruned ∈ Cheerio.removeNonContent root →
  Cheerio.Occurs hidden pruned n →
  hidden = false
  ∧ ∃ origin, Cheerio.Occurs false root origin ∧ Cheerio.removeNonContent origin = [n].
Proof.
  revert pruned n hidden.
  induction root as [d|tag attribs children IH] using Node_children_ind;
    intros pruned n hidden; simpl.
  - intros ->%list_elem_of_singleton Hocc. inversion Hocc; subst.
    split; [done|]. exists (Cheerio.Text d). split; [|done].
    apply (Cheerio.occurs_here (Cheerio.Text d)).
  - destruct (Cheerio.nonContentTag tag) eqn:Htag; [by intros ?%elem_of_nil|].
    intros ->%list_elem_of_singleton Hocc.
    inversion Hocc as [n'|tag' attribs' children' child hidden' n' Hchild Hocc']; subst.
    + simpl. split; [done|].
      exists (Cheerio.Element tag attribs children). split.
      * pose proof (Cheerio.occurs_here (Cheerio.Element tag attribs children)) as Hhere.
        simpl in Hhere. by rewrite Htag in Hhere.
      * simpl. by rewrite Htag.
    + apply list_elem_of_bind in Hchild as (original & Hchild & Horiginal).
      rewrite Forall_forall in IH.
      destruct (IH original Horiginal child n hidden' Hchild Hocc')
        as (-> & origin & Horigin & Hpruned).
      rewrite Htag. split; [done|]. exists origin. split; [|done].
      pose proof (Cheerio.occurs_below tag attribs children original false origin
                    Horiginal Horigin) as Hbelow.
      by rewrite Htag in Hbelow.
Qed.

Lemma remove_OccursIn (doc : Cheerio.Document) (n : Cheerio.Node) (hidden : bool) :
  Cheerio.OccursIn hidden (Cheerio.remove doc) n →
  hidden = false
  ∧ ∃ origin, Cheerio.OccursIn false doc origin ∧ Cheerio.removeNonContent origin = [n].
Proof.
  intros (pruned & (root & Hpruned & Hroot)%list_elem_of_bind & Hocc).
  destruct (removeNonContent_Occurs root pruned n hidden Hpruned Hocc)
    as (-> & origin & Horigin & Heq).
  split; [done|]. exists origin. split; [|done]. by exists root.
Qed.

Lemma nonContentTag_spec (tag : string) :
  Cheerio.nonContentTag tag = true ↔ tag = "pre" ∨ tag = "code" ∨ tag = "svg".
Proof.
  unfold Cheerio.nonContentTag. rewrite !orb_true_iff, !String.eqb_eq. tauto.
Qed.

Lemma Occurs_hiddenHere (hidden : bool) (root n : Cheerio.Node) :
  Cheerio.Occurs hidden root n → Cheerio.hiddenHere n = true → hidden = true.
Proof.
  induction 1 as [n|tag attribs children child hidden n Hin Hocc IH]; intros Hn; [done|].
  rewrite IH by done. apply orb_true_r.
Qed.

(** ** Facts about the declared-hash ledger *)

Lemma declaredLedger_snoc (history : list Call) (c : Call) :
  declaredLedger (history ++ [c])
  = match c with
    | FindSupportedHashes pageUrl doc =>
        HashProcessor.declare pageUrl (HashProcessor.supportedHashes doc)
                              (declaredLedger history)
    | _ => declaredLedger history
    end.
Proof. unfold declaredLedger. rewrite foldl_snoc. by destruct c. Qed.

Lemma declaredOn_findSupportedHashes (history : list Call) (pageUrl : string)
    (doc : Cheerio.Document) (i : string) :
  i ∈ HashProcessor.supportedHashes doc →
  i ∈ declaredOn (history ++ [FindSupportedHashes pageUrl doc]) pageUrl.
Proof.
  intros Hi. unfold declaredOn. rewrite declaredLedger_snoc.
  unfold HashProcessor.declare. rewrite lookup_insert_eq. simpl.
  apply elem_of_union_l. by apply elem_of_list_to_set.
Qed.

Lemma filter_title_register (queueItem : QueueItem) (hrefs : list string) :
  List.filter isTitleCall ((fun href => RegisterExpectedHash href queueItem) <$> hrefs) = [].
Proof. induction hrefs as [|h hrefs IH]; [done | by simpl]. Qed.

Lemma filter_title_titleCalls (config : Config) (queueItem : QueueItem)
    (doc : Cheerio.Document) :
  List.filter isTitleCall (titleCalls config queueItem doc) = titleCalls config queueItem doc.
Proof.
  unfold titleCalls. destruct (titleConfigured config); [|done].
  by destruct (getTitleValidationFailure _ _).
Qed.

Lemma filter_title_discoveryCalls (config : Config) (queueItem : QueueItem)
    (doc : Cheerio.Document) :
  List.filter isTitleCall (discoveryCalls config queueItem doc)
  = titleCalls config queueItem doc.
Proof.
  unfold discoveryCalls. simpl.
  rewrite !List.filter_app, filter_title_register, filter_title_titleCalls.
  simpl. by rewrite app_nil_r.
Qed.

(** ** The resource discoverer *)

#[local] Instance SameHost_dec (crawler : Engine) (queueItem : QueueItem) :
  Decision (SameHost crawler queueItem).
Proof. unfold SameHost. apply _. Defined.

#[local] Instance IsHtml_dec (queueItem : QueueItem) : Decision (IsHtml queueItem).
Proof.
  destruct (Js.startsWith "text/html" (contentType (stateData queueItem))) eqn:Hprefix.
  - left. by apply startsWith_prefix.
  - right. intros Hct%startsWith_prefix. congruence.
Defined.

(** C6. A fetched document whose declared content type does not start
    with [text/html] yields the empty resource list and nothing else
    happens: no call reaches the hash processor, the title validator,
    the error handler or the engine's link discovery, and the process
    state is left as it was. *)
Theorem non_html_document_is_skipped (config : Config) (crawler : Engine)
    (rnd : nat → nat) (buf : Buffer) (queueItem : QueueItem) (w : World) :
  (∀ rest, contentType (stateData queueItem) ≠ "text/html" ++ rest) →
  discoverResources config crawler rnd buf queueItem w = (Js.Normal [], w)
  ∧ added w (snd (discoverResources config crawler rnd buf queueItem w)) = [].
Proof.
  intros Hct.
  rewrite discoverResources_not_html.
  - split; [done|]. unfold added. simpl. apply drop_all.
  - intros [rest Hrest]. by apply (Hct rest).
Qed.

(** C1. For a fetched HTML document whose host is not the crawl's own
    host, [discoverResources] returns the empty list and its only call is
    [findSupportedHashes] on the page's URL and whole document, after
    which every identifier the page declares is in the declared-hash
    ledger under that URL. Fragment references to other domains are
    registered where they are found: on a same-host page every selected
    [a[href]] is handed to [registerExpectedHash], whatever host the href
    points to. *)
Theorem off_host_page_declares_ids (config : Config) (crawler : Engine)
    (rnd : nat → nat) (buf : Buffer) (queueItem : QueueItem) (w : World) :
  IsHtml queueItem →
  (¬ SameHost crawler queueItem →
     fst (discoverResources config crawler rnd buf queueItem w) = Js.Normal []
     ∧ added w (snd (discoverResources config crawler rnd buf queueItem w))
       = [FindSupportedHashes (url queueItem) (pageOf buf)]
     ∧ ∀ i, i ∈ HashProcessor.supportedHashes (pageOf buf) →
            i ∈ declaredOn (calls (snd (discoverResources config crawler rnd buf queueItem w)))
                           (url queueItem))
  ∧ (SameHost crawler queueItem →
     ∀ href, href ∈ Cheerio.anchorHrefs (Cheerio.remove (pageOf buf)) →
       RegisterExpectedHash href queueItem
       ∈ added w (snd (discoverResources config crawler rnd buf queueItem w))).
Proof.
  intros Hct. split; intros Hhost.
  - rewrite discoverResources_off_host by done. simpl.
    split; [done|]. split; [apply added_appendCalls|].
    intros i Hi. by apply declaredOn_findSupportedHashes.
  - intros href Hhref. rewrite discoverResources_same_host by done. simpl.
    rewrite added_appendCalls. unfold discoveryCalls.
    apply list_elem_of_further, elem_of_app. right. apply elem_of_app. left.
    by apply (list_elem_of_fmap_2 (fun h => RegisterExpectedHash h queueItem)).
Qed.

(** C8. On a same-host HTML page with a title pattern configured, a
    mismatch reported by the title validator is recorded as exactly one
    title error, for the page's URL, whose message carries the pattern
    and the actual title text; when the validator reports nothing, no
    error is recorded. Without a configured title pattern, or on an
    off-host page, the validator is not called and no title error is
    recorded. *)
Theorem title_mismatch_is_recorded_once (config : Config) (crawler : Engine)
    (rnd : nat → nat) (buf : Buffer) (queueItem : QueueItem) (w : World) :
  IsHtml queueItem →
  (SameHost crawler queueItem → titleConfigured config = true →
     match getTitleValidationFailure (titlePattern config) (pageOf buf) with
     | Some failure =>
         List.filter isTitleCall
           (added w (snd (discoverResources config crawler rnd buf queueItem w)))
         = [GetTitleValidationFailure (pageOf buf);
            HandleTitleError (url queueItem)
              ("pattern: " ++ patternToString (HtmlValidator.titlePattern failure)
               ++ " failed on title: " ++ HtmlValidator.titleText failure)]
     | None =>
         List.filter isTitleCall
           (added w (snd (discoverResources config crawler rnd buf queueItem w)))
         = [GetTitleValidationFailure (pageOf buf)]
     end)
  ∧ (titleConfigured config = false ∨ ¬ SameHost crawler queueItem →
     List.filter isTitleCall
       (added w (snd (discoverResources config crawler rnd buf queueItem w))) = []).
Proof.
  intros Hct. split.
  - intros Hhost Hconfigured.
    rewrite discoverResources_same_host by done. simpl.
    rewrite added_appendCalls, filter_title_discoveryCalls.
    unfold titleCalls. rewrite Hconfigured.
    by destruct (getTitleValidationFailure _ _).
  - intros [Hnone|Hhost].
    + destruct (decide (SameHost crawler queueItem)) as [Hsame|Hother].
      * rewrite discoverResources_same_host by done. simpl.
        rewrite added_appendCalls, filter_title_discoveryCalls.
        unfold titleCalls. by rewrite Hnone.
      * rewrite discoverResources_off_host by done. unfold record. simpl.
        by rewrite added_appendCalls.
    + rewrite discoverResources_off_host by done. unfold record. simpl.
      by rewrite added_appendCalls.
Qed.

(** C4. For a queue item on the crawl's own host the returned resource
    list has no duplicate entry, and two invocations on the same buffer
    and queue item, whatever values the shuffle draws and whatever the
    process state, return the same entries: the two lists are
    permutations of each other. For an HTML page their entries are
    exactly the candidates derived from the page. *)
Theorem discovered_set_is_stable (config : Config) (crawler : Engine)
    (rnd1 rnd2 : nat → nat) (buf : Buffer) (queueItem : QueueItem) (w1 w2 : World) :
  SameHost crawler queueItem →
  ∃ l1 l2,
    fst (discoverResources config crawler rnd1 buf queueItem w1) = Js.Normal l1
    ∧ fst (discoverResources config crawler rnd2 buf queueItem w2) = Js.Normal l2
    ∧ NoDup l1 ∧ NoDup l2
    ∧ l1 ≡ₚ l2
    ∧ (IsHtml queueItem →
       ∀ u, u ∈ l1 ↔ u ∈ candidates queueItem (Cheerio.remove (pageOf buf))).
Proof.
  intros Hhost.
  destruct (decide (IsHtml queueItem)) as [Hct|Hct]; eexists _, _.
  - rewrite !discoverResources_same_host by done. simpl.
    split; [done|]. split; [done|].
    split; [apply NoDup_shuffle_uniq|]. split; [apply NoDup_shuffle_uniq|].
    split; [by rewrite !shuffle_Permutation|].
    intros _ u. by rewrite shuffle_Permutation, elem_of_uniq.
  - rewrite !discoverResources_not_html by done. simpl.
    split; [done|]. split; [done|].
    split; [constructor|]. split; [constructor|]. done.
Qed.

(** C9. Within one invocation on a same-host HTML page the calls come in
    this order: [findSupportedHashes] on the whole document, the title
    check, then [registerExpectedHash] for the [a[href]] elements of the
    document pruned of [pre], [code] and [svg], then the engine's own
    discovery on the serialized pruned document. Hence an [id] or [name]
    anywhere in the page, also inside a pruned subtree, is a declared
    identifier of the document handed to [findSupportedHashes]; an href
    is registered exactly when it sits on an [a] element outside every
    pruned subtree; no node of a pruned subtree is left in the document
    the engine's discovery sees, which has no [pre], [code] or [svg]
    element at all; and the pruned elements are those with the tag
    [pre], [code] or [svg], and no others. *)
Theorem ids_before_pruning_links_after (config : Config) (crawler : Engine)
    (rnd : nat → nat) (buf : Buffer) (queueItem : QueueItem) (w : World) :
  IsHtml queueItem →
  SameHost crawler queueItem →
  discoverResources config crawler rnd buf queueItem w
  = (Js.Normal
       (Lodash.shuffle rnd
          (Lodash.uniq
             ((fun u => if mailtoMatcher u then None else Some u)
                <$> oldDiscoverResources (cheerioHtml (Cheerio.remove (pageOf buf)))
                                         queueItem))),
     appendCalls
       (FindSupportedHashes (url queueItem) (pageOf buf)
        :: titleCalls config queueItem (pageOf buf)
        ++ ((fun href => RegisterExpectedHash href queueItem)
              <$> Cheerio.anchorHrefs (Cheerio.remove (pageOf buf)))
        ++ [OldDiscoverResources (cheerioHtml (Cheerio.remove (pageOf buf))) queueItem])
       w)
  ∧ (∀ i hidden tag attribs children,
       Cheerio.OccursIn hidden (pageOf buf) (Cheerio.Element tag attribs children) →
       Cheerio.attr "id" attribs = Some i ∨ Cheerio.attr "name" attribs = Some i →
       i ∈ HashProcessor.supportedHashes (pageOf buf))
  ∧ (∀ h, h ∈ Cheerio.anchorHrefs (Cheerio.remove (pageOf buf)) ↔
          ∃ attribs children,
            Cheerio.OccursIn false (pageOf buf) (Cheerio.Element "a" attribs children)
            ∧ Cheerio.attr "href" attribs = Some h)
  ∧ (∀ hidden n, Cheerio.OccursIn hidden (Cheerio.remove (pageOf buf)) n → hidden = false)
  ∧ (∀ hidden tag attribs children,
       tag = "pre" ∨ tag = "code" ∨ tag = "svg" →
       ¬ Cheerio.OccursIn hidden (Cheerio.remove (pageOf buf))
                          (Cheerio.Element tag attribs children))
  ∧ (∀ tag, Cheerio.nonContentTag tag = true ↔ tag = "pre" ∨ tag = "code" ∨ tag = "svg").
Proof.
  intros Hct Hhost. split; [by apply discoverResources_same_host|].
  split; [|split; [|split; [|split]]].
  - intros i hidden tag attribs children Hocc Hattr.
    apply supportedHashes_OccursIn. eauto 6.
  - apply anchorHrefs_remove.
  - intros hidden n Hocc. by destruct (remove_OccursIn _ _ _ Hocc).
  - intros hidden tag attribs children Htag Hocc.
    destruct (remove_OccursIn _ _ _ Hocc) as [-> _].
    destruct Hocc as (root & _ & Hocc).
    apply Occurs_hiddenHere in Hocc; [done|]. by apply nonContentTag_spec.
  - apply nonContentTag_spec.
Qed.

(** With the three candidates of the mailto example, the returned list
    is a permutation of [null] and the one remaining URL. *)
Lemma mailto_example_result (config : Config) (crawler : Engine)
    (rnd : nat → nat) (buf : Buffer) (queueItem : QueueItem) (w : World) :
  IsHtml queueItem →
  SameHost crawler queueItem →
  oldDiscoverResources (cheerioHtml (Cheerio.remove (pageOf buf))) queueItem
  = ["mailto:a@b.com"; "https://x/y"; "mailto:c@d.com"] →
  ∃ l, fst (discoverResources config crawler rnd buf queueItem w) = Js.Normal l
       ∧ l ≡ₚ [None; Some "https://x/y"].
Proof.
  intros Hct Hhost Hlist. eexists.
  rewrite discoverResources_same_host by done. simpl. split; [done|].
  rewrite shuffle_Permutation. unfold candidates. rewrite Hlist.
  by vm_compute.
Qed.

(** Whatever the candidates, no URL that matches [mailtoMatcher] is
    returned. *)
Lemma mailto_urls_are_dropped (config : Config) (crawler : Engine)
    (rnd : nat → nat) (buf : Buffer) (queueItem : QueueItem) (w : World)
    (l : list (option string)) (u : string) :
  fst (discoverResources config crawler rnd buf queueItem w) = Js.Normal l →
  Some u ∈ l →
  mailtoMatcher u = false.
Proof.
  unfold discoverResources.
  destruct (Js.startsWith _ _); [|by intros [= <-] ?%elem_of_nil].
  unfold bind at 1, call, modify.
  case_bool_decide; [|by intros [= <-] ?%elem_of_nil].
  unfold bind at 1. fold (pageOf buf). rewrite checkTitle_calls.
  unfold bind at 1.
  rewrite (forEach_call (fun href => RegisterExpectedHash href queueItem)).
  unfold bind at 1, call, modify, ret. simpl. intros [= <-].
  rewrite shuffle_Permutation, elem_of_uniq, list_elem_of_fmap.
  intros (considerURL & Heq & _).
  destruct (mailtoMatcher considerURL) eqn:Hmail; congruence.
Qed.

(** ** The include/exclude fetch condition *)

Lemma found_getFirstMatchingPattern (patterns : list Pattern) (candidate : string)
    (root : option string) :
  (∀ p, p ∈ patterns → patternTruthy p = true) →
  found (getFirstMatchingPattern patterns candidate root) = true
  ↔ ∃ p, p ∈ patterns ∧ patternMatches p candidate root = true.
Proof.
  intros Htruthy. unfold found, getFirstMatchingPattern.
  destruct (List.find _ patterns) as [p|] eqn:Hfind.
  - apply List.find_some in Hfind as [Hin Hmatch].
    apply list_elem_of_In in Hin. split; [eauto | intros _; by apply Htruthy].
  - split; [done|]. intros (p & Hin & Hmatch).
    apply list_elem_of_In in Hin.
    pose proof (List.find_none _ _ Hfind p Hin) as Hnone. simpl in Hnone. congruence.
Qed.

Lemma not_found_getFirstMatchingPattern (patterns : list Pattern) (candidate : string)
    (root : option string) :
  (∀ p, p ∈ patterns → patternTruthy p = true) →
  negb (found (getFirstMatchingPattern patterns candidate root)) = true
  ↔ ∀ p, p ∈ patterns → patternMatches p candidate root = false.
Proof.
  intros Htruthy. rewrite negb_true_iff, <- not_true_iff_false.
  rewrite found_getFirstMatchingPattern by done. split.
  - intros Hnone p Hin. apply not_true_iff_false. intros Hmatch. apply Hnone. eauto.
  - intros Hall (p & Hin & Hmatch). rewrite Hall in Hmatch by done. discriminate.
Qed.

Lemma allowedBy_fetchCondition (config : Config) (hasExclude hasInclude : bool)
    (parsedURL : QueueItem) (w : World) :
  ∃ fetch : bool,
    allowedBy [fetchCondition config hasExclude hasInclude] parsedURL w
    = (Js.Normal fetch, if fetch then w else record (LogIgnore parsedURL) w)
    ∧ fetch
      = (if hasExclude
         then negb (found (getFirstMatchingPattern (default [] (excludePatterns config))
                                                   (url parsedURL) (rootUrl config)))
         else true)
        && (if hasInclude
            then found (getFirstMatchingPattern (default [] (includePatterns config))
                                                (url parsedURL) (rootUrl config))
            else true).
Proof.
  eexists. split; [|reflexivity].
  unfold allowedBy, fetchCondition, bind, when, call, modify, ret.
  destruct hasExclude, hasInclude; simpl;
    repeat (destruct (found _); simpl); done.
Qed.

(** C5. On a fresh engine, for configured patterns that are truthy
    values, the installed fetch condition lets a candidate URL through
    exactly when (there is no exclude pattern, or no exclude pattern
    matches the URL) and (there is no include pattern, or some include
    pattern matches it); a refused URL is logged as ignored. When both
    lists are empty or absent, no fetch condition is installed, and the
    engine, having none, lets every URL through. *)
Theorem fetch_condition_include_exclude (config : Config) (crawler : Engine)
    (parsedURL : QueueItem) (w : World) :
  (∀ p, p ∈ (default [] (excludePatterns config) ++ default [] (includePatterns config))%list →
        patternTruthy p = true) →
  fetchConditions crawler = [] →
  (default [] (excludePatterns config) = [] →
   default [] (includePatterns config) = [] →
   initIncludeExcludePatterns config crawler = crawler)
  ∧ ∃ fetch : bool,
      allowedBy (fetchConditions (initIncludeExcludePatterns config crawler)) parsedURL w
      = (Js.Normal fetch, if fetch then w else record (LogIgnore parsedURL) w)
      ∧ (fetch = true ↔
         (default [] (excludePatterns config) = []
          ∨ ∀ p, p ∈ default [] (excludePatterns config) →
                 patternMatches p (url parsedURL) (rootUrl config) = false)
         ∧ (default [] (includePatterns config) = []
            ∨ ∃ p, p ∈ default [] (includePatterns config)
                   ∧ patternMatches p (url parsedURL) (rootUrl config) = true)).
Proof.
  intros Htruthy Hfresh.
  assert (∀ o : option (list Pattern), nonEmpty o = false ↔ default [] o = []) as Hempty.
  { intros [[|p l]|]; simpl; split; done. }
  assert (∀ p, p ∈ default [] (excludePatterns config) → patternTruthy p = true) as HtruthyE.
  { intros p Hp. apply Htruthy, elem_of_app. by left. }
  assert (∀ p, p ∈ default [] (includePatterns config) → patternTruthy p = true) as HtruthyI.
  { intros p Hp. apply Htruthy, elem_of_app. by right. }
  unfold initIncludeExcludePatterns. split.
  - intros HE%Hempty HI%Hempty. by rewrite HE, HI.
  - destruct (nonEmpty (excludePatterns config)) eqn:HE;
      destruct (nonEmpty (includePatterns config)) eqn:HI; simpl;
      rewrite ?Hfresh; simpl.
    + destruct (allowedBy_fetchCondition config true true parsedURL w) as (fetch & Hrun & ->).
      eexists. split; [exact Hrun|].
      rewrite andb_true_iff, not_found_getFirstMatchingPattern,
        found_getFirstMatchingPattern by done.
      split; [naive_solver|].
      intros [[HnoE|HnoE] [HnoI|HnoI]]; try (apply Hempty in HnoE; congruence);
        try (apply Hempty in HnoI; congruence); done.
    + destruct (allowedBy_fetchCondition config true false parsedURL w) as (fetch & Hrun & ->).
      eexists. split; [exact Hrun|].
      rewrite andb_true_r, not_found_getFirstMatchingPattern by done.
      apply Hempty in HI. split; [naive_solver|].
      intros [[HnoE|HnoE] _]; [apply Hempty in HnoE; congruence | done].
    + destruct (allowedBy_fetchCondition config false true parsedURL w) as (fetch & Hrun & ->).
      eexists. split; [exact Hrun|].
      simpl. rewrite found_getFirstMatchingPattern by done.
      apply Hempty in HE. split; [naive_solver|].
      intros [_ [HnoI|HnoI]]; [apply Hempty in HnoI; congruence | done].
    + exists true. split; [done|].
      apply Hempty in HE, HI. naive_solver.
Qed.

(** ** The life cycle of a run *)

Lemma invalid_seed_iff (seed : UrlObject) :
  negb (Js.optTruthy (protocol seed))
  || negb (Js.optTruthy (hostname seed))
  || negb (Js.optTruthy (path seed)) = true
  ↔ LacksPart seed.
Proof.
  assert (∀ o, negb (Js.optTruthy o) = true ↔ Lacks o) as Hlacks.
  { intros [[|c s']|]; unfold Lacks; simpl; naive_solver. }
  unfold LacksPart. rewrite !orb_true_iff, !Hlacks. tauto.
Qed.

Lemma fetchConditions_foldl_setProp {A} (key : A → string) (value : A → Js.Value)
    (l : list A) (crawler : Engine) :
  fetchConditions (foldl (fun c x => setProp (key x) (value x) c) crawler l)
  = fetchConditions crawler.
Proof.
  revert crawler. induction l as [|x l IH]; intros crawler; simpl; [done|].
  by rewrite IH.
Qed.

Lemma fetchConditions_injectCrawlerConfig (config : Config) (crawler : Engine) :
  fetchConditions (injectCrawlerConfig config crawler) = fetchConditions crawler.
Proof.
  unfold injectCrawlerConfig, Lodash.forEach.
  destruct (simplecrawlerConfig config) as [settings|]; [|done].
  destruct (Lodash.isArrayLike settings).
  - apply (fetchConditions_foldl_setProp pretty (fun index => Js.get settings (pretty index))).
  - apply (fetchConditions_foldl_setProp fst snd).
Qed.

Lemma OwnConditions_initIncludeExcludePatterns (config config' : Config)
    (crawler : Engine) :
  fetchConditions crawler = [] →
  OwnConditions {| runConfig := config';
                   runEngine := initIncludeExcludePatterns config crawler |}.
Proof.
  intros Hfresh. unfold OwnConditions, initIncludeExcludePatterns. simpl.
  destruct (_ || _); simpl; rewrite Hfresh; [right; eauto | by left].
Qed.

Lemma crawl_invalid (myUrl : string) (config : Config) (w : World) :
  LacksPart (urlParse myUrl) →
  initCrawler myUrl config w = (Js.Throw "Invalid URL.", w)
  ∧ crawl myUrl config w = (Js.Throw "Invalid URL.", w).
Proof.
  intros Hlacks%invalid_seed_iff.
  unfold crawl, bind, initCrawler. by rewrite Hlacks.
Qed.

(** The fields of the process state after each elementary update. *)

Lemma calls_appendCalls (cs : list Call) (w : World) :
  calls (appendCalls cs w) = (calls w ++ cs)%list.
Proof. reflexivity. Qed.

Lemma timers_appendCalls (cs : list Call) (w : World) :
  timers (appendCalls cs w) = timers w.
Proof. reflexivity. Qed.

Lemma spooledReportTimer_appendCalls (cs : list Call) (w : World) :
  spooledReportTimer (appendCalls cs w) = spooledReportTimer w.
Proof. reflexivity. Qed.

Lemma nextTimer_appendCalls (cs : list Call) (w : World) :
  nextTimer (appendCalls cs w) = nextTimer w.
Proof. reflexivity. Qed.

Lemma exitCode_appendCalls (cs : list Call) (w : World) :
  exitCode (appendCalls cs w) = exitCode w.
Proof. reflexivity. Qed.

Lemma calls_armInterval (ms : Z) (w : World) :
  calls (armInterval ms w) = (calls w ++ [SetInterval (nextTimer w) ms])%list.
Proof. reflexivity. Qed.

Lemma timers_armInterval (ms : Z) (w : World) :
  timers (armInterval ms w) = {[nextTimer w]} ∪ timers w.
Proof. reflexivity. Qed.

Lemma spooledReportTimer_armInterval (ms : Z) (w : World) :
  spooledReportTimer (armInterval ms w) = spooledReportTimer w.
Proof. reflexivity. Qed.

Lemma nextTimer_armInterval (ms : Z) (w : World) :
  nextTimer (armInterval ms w) = S (nextTimer w).
Proof. reflexivity. Qed.

Lemma exitCode_armInterval (ms : Z) (w : World) :
  exitCode (armInterval ms w) = exitCode w.
Proof. reflexivity. Qed.

Lemma calls_disarmInterval (t : Timer) (w : World) :
  calls (disarmInterval t w) = (calls w ++ [ClearInterval t])%list.
Proof. reflexivity. Qed.

Lemma timers_disarmInterval (t : Timer) (w : World) :
  timers (disarmInterval t w) = timers w ∖ {[t]}.
Proof. reflexivity. Qed.

Lemma spooledReportTimer_disarmInterval (t : Timer) (w : World) :
  spooledReportTimer (disarmInterval t w) = spooledReportTimer w.
Proof. reflexivity. Qed.

Lemma nextTimer_disarmInterval (t : Timer) (w : World) :
  nextTimer (disarmInterval t w) = nextTimer w.
Proof. reflexivity. Qed.

Lemma exitCode_disarmInterval (t : Timer) (w : World) :
  exitCode (disarmInterval t w) = exitCode w.
Proof. reflexivity. Qed.

Lemma calls_setSpooledReportTimer (t : Timer) (w : World) :
  calls (setSpooledReportTimer t w) = calls w.
Proof. reflexivity. Qed.

Lemma timers_setSpooledReportTimer (t : Timer) (w : World) :
  timers (setSpooledReportTimer t w) = timers w.
Proof. reflexivity. Qed.

Lemma spooledReportTimer_setSpooledReportTimer (t : Timer) (w : World) :
  spooledReportTimer (setSpooledReportTimer t w) = Some t.
Proof. reflexivity. Qed.

Lemma nextTimer_setSpooledReportTimer (t : Timer) (w : World) :
  nextTimer (setSpooledReportTimer t w) = nextTimer w.
Proof. reflexivity. Qed.

Lemma exitCode_setSpooledReportTimer (t : Timer) (w : World) :
  exitCode (setSpooledReportTimer t w) = exitCode w.
Proof. reflexivity. Qed.

Lemma calls_setTlsDefaultCiphers (c : string) (w : World) :
  calls (setTlsDefaultCiphers c w) = calls w.
Proof. reflexivity. Qed.

Lemma timers_setTlsDefaultCiphers (c : string) (w : World) :
  timers (setTlsDefaultCiphers c w) = timers w.
Proof. reflexivity. Qed.

Lemma spooledReportTimer_setTlsDefaultCiphers (c : string) (w : World) :
  spooledReportTimer (setTlsDefaultCiphers c w) = spooledReportTimer w.
Proof. reflexivity. Qed.

Lemma nextTimer_setTlsDefaultCiphers (c : string) (w : World) :
  nextTimer (setTlsDefaultCiphers c w) = nextTimer w.
Proof. reflexivity. Qed.

Lemma exitCode_setTlsDefaultCiphers (c : string) (w : World) :
  exitCode (setTlsDefaultCiphers c w) = exitCode w.
Proof. reflexivity. Qed.

Lemma calls_setEnv (k v : string) (w : World) :
  calls (setEnv k v w) = calls w.
Proof. reflexivity. Qed.

Lemma timers_setEnv (k v : string) (w : World) :
  timers (setEnv k v w) = timers w.
Proof. reflexivity. Qed.

Lemma spooledReportTimer_setEnv (k v : string) (w : World) :
  spooledReportTimer (setEnv k v w) = spooledReportTimer w.
Proof. reflexivity. Qed.

Lemma nextTimer_setEnv (k v : string) (w : World) :
  nextTimer (setEnv k v w) = nextTimer w.
Proof. reflexivity. Qed.

Lemma exitCode_setEnv (k v : string) (w : World) :
  exitCode (setEnv k v w) = exitCode w.
Proof. reflexivity. Qed.

Lemma calls_setExitCode (z : Z) (w : World) :
  calls (setExitCode z w) = calls w.
Proof. reflexivity. Qed.

Lemma timers_setExitCode (z : Z) (w : World) :
  timers (setExitCode z w) = timers w.
Proof. reflexivity. Qed.

Lemma spooledReportTimer_setExitCode (z : Z) (w : World) :
  spooledReportTimer (setExitCode z w) = spooledReportTimer w.
Proof. reflexivity. Qed.

Lemma nextTimer_setExitCode (z : Z) (w : World) :
  nextTimer (setExitCode z w) = nextTimer w.
Proof. reflexivity. Qed.

Lemma exitCode_setExitCode (z : Z) (w : World) :
  exitCode (setExitCode z w) = Some z.
Proof. reflexivity. Qed.

Create Rewrite HintDb world.

#[local] Hint Rewrite
  calls_appendCalls timers_appendCalls spooledReportTimer_appendCalls
  nextTimer_appendCalls exitCode_appendCalls calls_armInterval
  timers_armInterval spooledReportTimer_armInterval nextTimer_armInterval
  exitCode_armInterval calls_disarmInterval timers_disarmInterval
  spooledReportTimer_disarmInterval nextTimer_disarmInterval exitCode_disarmInterval
  calls_setSpooledReportTimer timers_setSpooledReportTimer spooledReportTimer_setSpooledReportTimer
  nextTimer_setSpooledReportTimer exitCode_setSpooledReportTimer calls_setTlsDefaultCiphers
  timers_setTlsDefaultCiphers spooledReportTimer_setTlsDefaultCiphers nextTimer_setTlsDefaultCiphers
  exitCode_setTlsDefaultCiphers calls_setEnv timers_setEnv
  spooledReportTimer_setEnv nextTimer_setEnv exitCode_setEnv
  calls_setExitCode timers_setExitCode spooledReportTimer_setExitCode
  nextTimer_setExitCode exitCode_setExitCode
  : world.

Ltac world_simpl := unfold record, SameTimers; autorewrite with world.

Ltac solve_Forall :=
  repeat first
    [ apply Forall_nil_2
    | apply Forall_cons; split
    | apply Forall_app; split
    | apply Forall_fmap, Forall_true; intro; simpl
    | done
    | by left
    | by eauto ].

Lemma crawl_valid (myUrl : string) (config : Config) (w : World) :
  ¬ LacksPart (urlParse myUrl) →
  ∃ run w' cs,
    crawl myUrl config w = (Js.Normal run, w')
    ∧ calls w' = (calls w ++ cs)%list
    ∧ NewSimplecrawler myUrl ∈ cs
    ∧ last cs = Some Start
    ∧ Forall (fun c => isLifecycle c = false
                       ∨ c = NewSimplecrawler myUrl ∨ c = Start
                       ∨ ∃ ms, c = SetInterval (nextTimer w) ms) cs
    ∧ OwnConditions run
    ∧ (if (0 <? reportSpoolInterval config)%Z
       then spooledReportTimer w' = Some (nextTimer w)
            ∧ timers w' = {[nextTimer w]} ∪ timers w
            ∧ nextTimer w' = S (nextTimer w)
       else SameTimers w w').
Proof.
  intros Hvalid.
  assert (negb (Js.optTruthy (protocol (urlParse myUrl)))
          || negb (Js.optTruthy (hostname (urlParse myUrl)))
          || negb (Js.optTruthy (path (urlParse myUrl))) = false) as Hcheck.
  { apply not_true_iff_false. by rewrite invalid_seed_iff. }
  unfold crawl, initCrawler. rewrite Hcheck.
  unfold setConfigRootUrl, initTls, newSimplecrawler, initAdditionalPaths, initSpool.
  unfold when, bind, call, modify, ret, setInterval. simpl.
  destruct (strictCiphers config); simpl;
    destruct (ignoreInvalidSSL _); simpl;
    destruct (additionalPaths config) as [paths|]; simpl;
    rewrite ?(forEach_call QueueURL);
    destruct (0 <? reportSpoolInterval config)%Z; simpl;
    (eexists _, _, _; split; [reflexivity|]);
    world_simpl; rewrite <- !app_assoc;
    (split; [reflexivity|]);
    (split; [set_solver|]);
    (split; [by rewrite ?app_comm_cons, ?app_assoc, last_snoc|]);
    (split; [solve_Forall|]);
    (split; [by apply OwnConditions_initIncludeExcludePatterns,
                      fetchConditions_injectCrawlerConfig | done]).
Qed.

Lemma onComplete_runs (w : World) :
  ∃ w',
    onComplete w = (Js.Normal tt, w')
    ∧ calls w' = (calls w ++ cancelled w ++ [FindErrors; Report])%list
    ∧ exitCode w' = Some (loggerReport (calls w ++ cancelled w ++ [FindErrors])%list)
    ∧ timers w' = stillArmed w
    ∧ spooledReportTimer w' = spooledReportTimer w
    ∧ nextTimer w' = nextTimer w.
Proof.
  unfold onComplete, report, get, bind, clearInterval, call, modify, ret,
    cancelled, stillArmed.
  destruct (spooledReportTimer w) as [t|] eqn:Htimer; simpl;
    (eexists; split; [reflexivity|]); world_simpl;
    rewrite <- ?app_assoc, ?Htimer; done.
Qed.

Lemma isLifecycle_titleCalls (config : Config) (queueItem : QueueItem)
    (doc : Cheerio.Document) :
  Forall (fun c => isLifecycle c = false) (titleCalls config queueItem doc).
Proof.
  unfold titleCalls. destruct (titleConfigured config); [|constructor].
  destruct (getTitleValidationFailure _ _); solve_Forall.
Qed.

(** A callback other than the [complete] event only adds per-page calls
    and leaves the rest of the process state as it was. *)
Lemma invoke_ordinary (run : Run) (cb : Callback) (w : World) :
  OwnConditions run →
  isComplete cb = false →
  ∃ cs, invoke run cb w = (Js.Normal tt, appendCalls cs w)
        ∧ Forall (fun c => isLifecycle c = false) cs.
Proof.
  intros Hown Hcb. destruct cb as [e|rnd buf queueItem|parsedURL]; simpl.
  - destruct e; try discriminate; simpl;
      try (eexists [_]; split; [reflexivity | solve_Forall]).
    eexists. rewrite (forEach_call (fun u => RegisterLink (url queueItem) u)).
    split; [reflexivity | solve_Forall].
  - unfold bind.
    destruct (decide (IsHtml queueItem)) as [Hct|Hct].
    + destruct (decide (SameHost (runEngine run) queueItem)) as [Hhost|Hhost].
      * rewrite discoverResources_same_host by done.
        eexists. split; [reflexivity|].
        apply Forall_cons. split; [done|].
        apply Forall_app. split; [apply isLifecycle_titleCalls | solve_Forall].
      * rewrite discoverResources_off_host by done.
        eexists [_]. split; [reflexivity | solve_Forall].
    + rewrite discoverResources_not_html by done.
      exists []. by rewrite appendCalls_nil.
  - unfold bind.
    destruct Hown as [->|(config & hasExclude & hasInclude & ->)].
    + exists []. by rewrite appendCalls_nil.
    + destruct (allowedBy_fetchCondition config hasExclude hasInclude parsedURL w)
        as (fetch & -> & _).
      destruct fetch.
      * exists []. by rewrite appendCalls_nil.
      * eexists [_]. split; [reflexivity | solve_Forall].
Qed.

Lemma isFindErrors_lifecycle (cs : list Call) :
  Forall (fun c => isLifecycle c = false) cs → List.filter isFindErrors cs = [].
Proof.
  induction 1 as [|c cs Hc _ IH]; [done|]. simpl. rewrite IH.
  by destruct c.
Qed.

Lemma invoke_runs (run : Run) (cb : Callback) (w : World) :
  OwnConditions run →
  ∃ w' cs,
    invoke run cb w = (Js.Normal tt, w')
    ∧ calls w' = (calls w ++ cs)%list
    ∧ spooledReportTimer w' = spooledReportTimer w
    ∧ nextTimer w' = nextTimer w
    ∧ (if isComplete cb
       then cs = (cancelled w ++ [FindErrors; Report])%list ∧ timers w' = stillArmed w
       else Forall (fun c => isLifecycle c = false) cs ∧ timers w' = timers w).
Proof.
  intros Hown. destruct (isComplete cb) eqn:Hcb.
  - destruct cb as [[]| |]; try discriminate. simpl.
    destruct (onComplete_runs w) as (w' & -> & Hcalls & _ & Htimers & Hspool & Hnext).
    by exists w', (cancelled w ++ [FindErrors; Report])%list.
  - destruct (invoke_ordinary run cb w Hown Hcb) as (cs & -> & Hcs).
    by exists (appendCalls cs w), cs.
Qed.

Lemma runCallbacks_findErrors (run : Run) (cbs : list Callback) (w : World) :
  OwnConditions run →
  ∃ w' cs,
    runCallbacks run cbs w = (Js.Normal tt, w')
    ∧ calls w' = (calls w ++ cs)%list
    ∧ length (List.filter isFindErrors cs) = length (List.filter isComplete cbs).
Proof.
  intros Hown. revert w. induction cbs as [|cb cbs IH]; intros w.
  - exists w, []. by rewrite app_nil_r.
  - unfold runCallbacks in *. simpl. unfold bind at 1.
    destruct (invoke_runs run cb w Hown) as (w1 & cs1 & -> & Hcalls1 & _ & _ & Hcb).
    destruct (IH w1) as (w2 & cs2 & -> & Hcalls2 & Hcount).
    exists w2, (cs1 ++ cs2)%list.
    split; [done|]. split; [by rewrite Hcalls2, Hcalls1, app_assoc|].
    rewrite List.filter_app, length_app, Hcount.
    destruct (isComplete cb).
    + destruct Hcb as [-> _]. unfold cancelled.
      by destruct (spooledReportTimer w).
    + destruct Hcb as [Hcs _]. by rewrite isFindErrors_lifecycle.
Qed.

Lemma added_of_calls (w w' : World) (cs : list Call) :
  calls w' = (calls w ++ cs)%list → added w w' = cs.
Proof. intros Hcalls. unfold added. by rewrite Hcalls, drop_app_length. Qed.

Lemma crawl_normal_valid (myUrl : string) (config : Config) (w w' : World) (run : Run) :
  crawl myUrl config w = (Js.Normal run, w') → ¬ LacksPart (urlParse myUrl).
Proof.
  intros Hcrawl Hlacks.
  destruct (crawl_invalid myUrl config w Hlacks) as [_ Hthrow]. congruence.
Qed.

(** C3. The listener of the engine's [complete] event cancels the spool
    timer whose handle the module holds (if any), then calls
    [findErrors()], then [report()], and stores the value [report()]
    returned as the process exit code. Setting a run up calls
    [findErrors()] not at all, and over any sequence of callbacks of the
    run there are exactly as many [findErrors()] calls as [complete]
    events in it: one for a run whose engine completes once. *)
Theorem completion_reports_once (myUrl : string) (config : Config)
    (w0 w1 w : World) (run : Run) (cbs : list Callback) :
  crawl myUrl config w0 = (Js.Normal run, w1) →
  (∃ w', onComplete w = (Js.Normal tt, w')
         ∧ added w w' = (cancelled w ++ [FindErrors; Report])%list
         ∧ timers w' = stillArmed w
         ∧ exitCode w'
           = Some (loggerReport (calls w ++ cancelled w ++ [FindErrors])%list))
  ∧ List.filter isFindErrors (added w0 w1) = []
  ∧ length (List.filter isFindErrors (added w (snd (runCallbacks run cbs w))))
    = length (List.filter isComplete cbs).
Proof.
  intros Hcrawl.
  pose proof (crawl_normal_valid _ _ _ _ _ Hcrawl) as Hvalid.
  destruct (crawl_valid myUrl config w0 Hvalid)
    as (run' & w1' & cs & Hcrawl' & Hcalls & _ & _ & Hcs & Hown & _).
  rewrite Hcrawl in Hcrawl'. injection Hcrawl' as <- <-.
  split; [|split].
  - destruct (onComplete_runs w) as (w' & Hrun & Hcalls' & Hexit & Htimers & _).
    exists w'. by rewrite (added_of_calls _ _ _ Hcalls').
  - rewrite (added_of_calls _ _ _ Hcalls).
    clear Hcalls. induction Hcs as [|c cs Hc _ IH]; [done|].
    simpl. rewrite IH.
    destruct Hc as [Hc|[->|[->|[ms ->]]]]; [by destruct c | done..].
  - destruct (runCallbacks_findErrors run cbs w Hown) as (w' & cs' & -> & Hcalls' & Hcount).
    simpl. by rewrite (added_of_calls _ _ _ Hcalls').
Qed.

(** C7. When the parsed seed URL lacks a protocol, a hostname or a path,
    initialization throws [Invalid URL.] with the process untouched: no
    engine has been constructed and none is started. When it has all
    three, [crawl] completes normally, having constructed the engine for
    the seed URL and, last of all, started it. *)
Theorem seed_url_is_validated (myUrl : string) (config : Config) (w : World) :
  (LacksPart (urlParse myUrl) →
     initCrawler myUrl config w = (Js.Throw "Invalid URL.", w)
     ∧ crawl myUrl config w = (Js.Throw "Invalid URL.", w))
  ∧ (¬ LacksPart (urlParse myUrl) →
     ∃ run w', crawl myUrl config w = (Js.Normal run, w')
               ∧ NewSimplecrawler myUrl ∈ added w w'
               ∧ last (calls w') = Some Start).
Proof.
  split.
  - apply crawl_invalid.
  - intros Hvalid.
    destruct (crawl_valid myUrl config w Hvalid)
      as (run & w' & cs & Hcrawl & Hcalls & Hnew & Hlast & _).
    exists run, w'. split; [done|].
    rewrite (added_of_calls _ _ _ Hcalls). split; [done|].
    rewrite Hcalls. destruct cs as [|c cs]; [done|].
    by rewrite last_app, Hlast.
Qed.

(** Once the module-level handle holds [t2], callbacks of any runs leave
    every other armed interval armed. *)
Lemma interleaved_after_overwrite (t1 t2 : Timer) (steps : list (Run * Callback))
    (w : World) :
  t1 ≠ t2 →
  Forall (fun step => OwnConditions (fst step)) steps →
  spooledReportTimer w = Some t2 →
  t1 ∈ timers w →
  ∃ w' cs,
    runInterleaved steps w = (Js.Normal tt, w')
    ∧ calls w' = (calls w ++ cs)%list
    ∧ (ClearInterval t1 ∉ cs)
    ∧ (∀ t, ClearInterval t ∈ cs → t = t2)
    ∧ spooledReportTimer w' = Some t2
    ∧ t1 ∈ timers w'
    ∧ timers w' ⊆ timers w
    ∧ (existsb isComplete (snd <$> steps) = true → t2 ∉ timers w').
Proof.
  intros Hne Hown. revert w.
  induction Hown as [|[run cb] steps Hrun _ IH]; intros w Hspool Harmed.
  - exists w, []. rewrite app_nil_r. set_solver.
  - unfold runInterleaved in *. simpl. unfold bind at 1.
    destruct (invoke_runs run cb w Hrun)
      as (w1 & cs1 & -> & Hcalls1 & Hspool1 & _ & Hcb).
    assert (t1 ∈ timers w1 ∧ timers w1 ⊆ timers w
            ∧ (∀ t, ClearInterval t ∈ cs1 → t = t2)
            ∧ (isComplete cb = true → t2 ∉ timers w1)) as (Harmed1 & Hsub1 & Hclear1 & Hgone1).
    { destruct (isComplete cb).
      - destruct Hcb as [-> ->]. unfold cancelled, stillArmed. rewrite Hspool.
        set_solver.
      - destruct Hcb as [Hcs ->]. split; [done|]. split; [done|]. split; [|done].
        intros t Ht. rewrite Forall_forall in Hcs. by apply Hcs in Ht. }
    destruct (IH w1) as (w2 & cs2 & -> & Hcalls2 & _ & Hclear2 & Hspool2 & Harmed2
                         & Hsub2 & Hgone2); [congruence | done |].
    exists w2, (cs1 ++ cs2)%list.
    split; [done|]. split; [by rewrite Hcalls2, Hcalls1, app_assoc|].
    assert (∀ t, ClearInterval t ∈ (cs1 ++ cs2)%list → t = t2) as Hclear.
    { intros t [Ht|Ht]%elem_of_app; eauto. }
    split; [intros Ht; by apply Hclear in Ht|].
    split; [done|]. split; [done|]. split; [done|]. split; [set_solver|].
    intros [Hnow|Hlater]%orb_true_iff; [|by apply Hgone2].
    specialize (Hgone1 Hnow). set_solver.
Qed.

Lemma runInterleaved_ordinary (steps : list (Run * Callback)) (w : World) :
  Forall (fun step => OwnConditions (fst step) ∧ isComplete (snd step) = false) steps →
  ∃ w', runInterleaved steps w = (Js.Normal tt, w') ∧ SameTimers w w'.
Proof.
  intros Hsteps. revert w.
  induction Hsteps as [|[run cb] steps [Hown Hcb] _ IH]; intros w.
  - by exists w.
  - unfold runInterleaved in *. simpl. unfold bind at 1.
    destruct (invoke_ordinary run cb w Hown Hcb) as (cs & -> & _).
    destruct (IH (appendCalls cs w)) as (w' & -> & Hsame).
    by exists w'.
Qed.

(** C10. The handle of the spool timer is one variable of the module,
    shared by every run in the process. When a second run with a
    positive spool interval is set up before the first one completes,
    its handle replaces the first run's in that variable. From then on,
    whatever callbacks of the two runs follow, every [clearInterval] is
    for the second handle: the first run's interval is never cancelled
    and stays armed, while the second is disarmed by the first
    [complete] event of either run. *)
Theorem second_run_orphans_first_timer (url1 url2 : string) (config1 config2 : Config)
    (w0 w1 w1' w2 : World) (run1 run2 : Run) (early steps : list (Run * Callback)) :
  (0 < reportSpoolInterval config1)%Z →
  (0 < reportSpoolInterval config2)%Z →
  crawl url1 config1 w0 = (Js.Normal run1, w1) →
  Forall (fun step => fst step = run1 ∧ isComplete (snd step) = false) early →
  runInterleaved early w1 = (Js.Normal tt, w1') →
  crawl url2 config2 w1' = (Js.Normal run2, w2) →
  Forall (fun step => fst step = run1 ∨ fst step = run2) steps →
  spooledReportTimer w1' = Some (nextTimer w0)
  ∧ nextTimer w0 ∈ timers w1'
  ∧ spooledReportTimer w2 = Some (nextTimer w1')
  ∧ nextTimer w1' ≠ nextTimer w0
  ∧ ∃ w3, runInterleaved steps w2 = (Js.Normal tt, w3)
          ∧ spooledReportTimer w3 = Some (nextTimer w1')
          ∧ nextTimer w0 ∈ timers w3
          ∧ (ClearInterval (nextTimer w0) ∉ added w2 w3)
          ∧ (existsb isComplete (snd <$> steps) = true → nextTimer w1' ∉ timers w3).
Proof.
  intros Hms1 Hms2 Hcrawl1 Hearly Hrun Hcrawl2 Hsteps.
  pose proof (crawl_normal_valid _ _ _ _ _ Hcrawl1) as Hvalid1.
  pose proof (crawl_normal_valid _ _ _ _ _ Hcrawl2) as Hvalid2.
  destruct (crawl_valid url1 config1 w0 Hvalid1)
    as (run1' & w1'' & cs1 & Hcrawl1' & _ & _ & _ & _ & Hown1 & Htimers1).
  rewrite Hcrawl1 in Hcrawl1'. injection Hcrawl1' as <- <-.
  destruct (runInterleaved_ordinary early w1) as (w1'' & Hrun' & Hspool & Harmed & Hnext).
  { eapply Forall_impl; [exact Hearly|]. by intros step [-> ?]. }
  rewrite Hrun in Hrun'. injection Hrun' as <-.
  destruct (crawl_valid url2 config2 w1' Hvalid2)
    as (run2' & w2' & cs2 & Hcrawl2' & _ & _ & _ & _ & Hown2 & Htimers2).
  rewrite Hcrawl2 in Hcrawl2'. injection Hcrawl2' as <- <-.
  apply Z.ltb_lt in Hms1, Hms2. rewrite Hms1 in Htimers1. rewrite Hms2 in Htimers2.
  destruct Htimers1 as (Hspool1 & Harmed1 & Hnext1).
  destruct Htimers2 as (Hspool2 & Harmed2 & Hnext2).
  split; [congruence|]. split; [set_solver|]. split; [done|]. split; [lia|].
  destruct (interleaved_after_overwrite (nextTimer w0) (nextTimer w1') steps w2)
    as (w3 & cs & Hrun3 & Hcalls & Hclear & _ & Hspool3 & Harmed3 & _ & Hgone).
  - lia.
  - eapply Forall_impl; [exact Hsteps|]. intros step [->| ->]; done.
  - done.
  - set_solver.
  - exists w3. by rewrite (added_of_calls _ _ _ Hcalls).
Qed.

(** ** Further properties of the orchestrator *)

(** The TLS settings and the environment after each elementary update. *)

Lemma tlsDefaultCiphers_appendCalls (cs : list Call) (w : World) :
  tlsDefaultCiphers (appendCalls cs w) = tlsDefaultCiphers w.
Proof. reflexivity. Qed.

Lemma env_appendCalls (cs : list Call) (w : World) :
  env (appendCalls cs w) = env w.
Proof. reflexivity. Qed.

Lemma tlsDefaultCiphers_armInterval (ms : Z) (w : World) :
  tlsDefaultCiphers (armInterval ms w) = tlsDefaultCiphers w.
Proof. reflexivity. Qed.

Lemma env_armInterval (ms : Z) (w : World) :
  env (armInterval ms w) = env w.
Proof. reflexivity. Qed.

Lemma tlsDefaultCiphers_disarmInterval (t : Timer) (w : World) :
  tlsDefaultCiphers (disarmInterval t w) = tlsDefaultCiphers w.
Proof. reflexivity. Qed.

Lemma env_disarmInterval (t : Timer) (w : World) :
  env (disarmInterval t w) = env w.
Proof. reflexivity. Qed.

Lemma tlsDefaultCiphers_setSpooledReportTimer (t : Timer) (w : World) :
  tlsDefaultCiphers (setSpooledReportTimer t w) = tlsDefaultCiphers w.
Proof. reflexivity. Qed.

Lemma env_setSpooledReportTimer (t : Timer) (w : World) :
  env (setSpooledReportTimer t w) = env w.
Proof. reflexivity. Qed.

Lemma tlsDefaultCiphers_setTlsDefaultCiphers (c : string) (w : World) :
  tlsDefaultCiphers (setTlsDefaultCiphers c w) = Some c.
Proof. reflexivity. Qed.

Lemma env_setTlsDefaultCiphers (c : string) (w : World) :
  env (setTlsDefaultCiphers c w) = env w.
Proof. reflexivity. Qed.

Lemma tlsDefaultCiphers_setEnv (k v : string) (w : World) :
  tlsDefaultCiphers (setEnv k v w) = tlsDefaultCiphers w.
Proof. reflexivity. Qed.

Lemma env_setEnv (k v : string) (w : World) :
  env (setEnv k v w) = <[k := v]> (env w).
Proof. reflexivity. Qed.

Lemma tlsDefaultCiphers_setExitCode (z : Z) (w : World) :
  tlsDefaultCiphers (setExitCode z w) = tlsDefaultCiphers w.
Proof. reflexivity. Qed.

Lemma env_setExitCode (z : Z) (w : World) :
  env (setExitCode z w) = env w.
Proof. reflexivity. Qed.

#[local] Hint Rewrite
  tlsDefaultCiphers_appendCalls env_appendCalls
  tlsDefaultCiphers_armInterval env_armInterval
  tlsDefaultCiphers_disarmInterval env_disarmInterval
  tlsDefaultCiphers_setSpooledReportTimer env_setSpooledReportTimer
  tlsDefaultCiphers_setTlsDefaultCiphers env_setTlsDefaultCiphers
  tlsDefaultCiphers_setEnv env_setEnv
  tlsDefaultCiphers_setExitCode env_setExitCode
  : world.

Lemma crawl_setup (myUrl : string) (config : Config) (w : World) :
  ¬ LacksPart (urlParse myUrl) →
  ∃ root w',
    crawl myUrl config w
    = (Js.Normal
         {| runConfig := withRootUrl root config;
            runEngine :=
              initIncludeExcludePatterns (withRootUrl root config)
                (injectCrawlerConfig (withRootUrl root config)
                   {| props := simplecrawlerProps myUrl; fetchConditions := [] |}) |},
       w')
    ∧ root = ((if Js.optTruthy (protocol (urlParse myUrl))
               then interpolate (protocol (urlParse myUrl)) else "https:")
              ++ "//" ++ interpolate (hostname (urlParse myUrl))
              ++ (if Js.optTruthy (port (urlParse myUrl))
                  then ":" ++ interpolate (port (urlParse myUrl)) else ""))
    ∧ calls w' = (calls w ++ setUpCalls myUrl root config (nextTimer w))%list
    ∧ tlsDefaultCiphers w'
      = (if strictCiphers config then tlsDefaultCiphers w else Some "ALL")
    ∧ env w'
      = (if ignoreInvalidSSL config
         then <["NODE_TLS_REJECT_UNAUTHORIZED" := "0"]> (env w) else env w)
    ∧ exitCode w' = exitCode w.
Proof.
  intros Hvalid.
  assert (negb (Js.optTruthy (protocol (urlParse myUrl)))
          || negb (Js.optTruthy (hostname (urlParse myUrl)))
          || negb (Js.optTruthy (path (urlParse myUrl))) = false) as Hcheck.
  { apply not_true_iff_false. by rewrite invalid_seed_iff. }
  unfold crawl, initCrawler. rewrite Hcheck.
  unfold setConfigRootUrl, initTls, newSimplecrawler, initAdditionalPaths, initSpool.
  unfold when, bind, call, modify, ret, setInterval, setUpCalls. simpl.
  match goal with
  | |- context [ignoreInvalidSSL (withRootUrl ?r config)] =>
      change (ignoreInvalidSSL (withRootUrl r config)) with (ignoreInvalidSSL config)
  end.
  destruct (strictCiphers config); simpl;
    destruct (ignoreInvalidSSL config); simpl;
    destruct (additionalPaths config) as [paths|]; simpl;
    rewrite ?(forEach_call QueueURL);
    destruct (0 <? reportSpoolInterval config)%Z; simpl;
    (eexists _, _; split; [reflexivity|]);
    (split; [reflexivity|]);
    world_simpl; rewrite <- ?app_assoc; simpl;
    repeat split; reflexivity.
Qed.
Lemma crawl_normal_setup (myUrl : string) (config : Config) (w w' : World) (run : Run) :
  crawl myUrl config w = (Js.Normal run, w') →
  ∃ root,
    run = {| runConfig := withRootUrl root config;
             runEngine :=
               initIncludeExcludePatterns (withRootUrl root config)
                 (injectCrawlerConfig (withRootUrl root config)
                    {| props := simplecrawlerProps myUrl; fetchConditions := [] |}) |}
    ∧ root = ((if Js.optTruthy (protocol (urlParse myUrl))
               then interpolate (protocol (urlParse myUrl)) else "https:")
              ++ "//" ++ interpolate (hostname (urlParse myUrl))
              ++ (if Js.optTruthy (port (urlParse myUrl))
                  then ":" ++ interpolate (port (urlParse myUrl)) else ""))
    ∧ calls w' = (calls w ++ setUpCalls myUrl root config (nextTimer w))%list
    ∧ tlsDefaultCiphers w'
      = (if strictCiphers config then tlsDefaultCiphers w else Some "ALL")
    ∧ env w'
      = (if ignoreInvalidSSL config
         then <["NODE_TLS_REJECT_UNAUTHORIZED" := "0"]> (env w) else env w)
    ∧ exitCode w' = exitCode w.
Proof.
  intros Hcrawl.
  pose proof (crawl_normal_valid _ _ _ _ _ Hcrawl) as Hvalid.
  destruct (crawl_setup myUrl config w Hvalid) as (root & w'' & Hcrawl' & Hrest).
  rewrite Hcrawl in Hcrawl'. injection Hcrawl' as -> ->.
  by exists root.
Qed.

Lemma truthy_Some (o : option string) :
  Js.optTruthy o = true → ∃ s, o = Some s ∧ s ≠ "".
Proof. destruct o as [[|c s]|]; [done| |done]. intros _. by eexists. Qed.

(** X1. The root URL of a run is the seed's own protocol, two slashes,
    its hostname and, when the seed has a port, a colon and the port;
    the seed's path is no part of it, and the [https:] default is never
    used, since a seed without protocol is rejected first. The rest of
    the configuration is left as it was. *)
Theorem root_url_of_run (myUrl : string) (config : Config) (w w' : World) (run : Run) :
  crawl myUrl config w = (Js.Normal run, w') →
  ∃ p h,
    protocol (urlParse myUrl) = Some p ∧ p ≠ ""
    ∧ hostname (urlParse myUrl) = Some h ∧ h ≠ ""
    ∧ rootUrl (runConfig run)
      = Some (p ++ "//" ++ h
              ++ match port (urlParse myUrl) with
                 | Some (String c q) => ":" ++ String c q
                 | _ => ""
                 end)
    ∧ strictCiphers (runConfig run) = strictCiphers config
    ∧ simplecrawlerConfig (runConfig run) = simplecrawlerConfig config
    ∧ reportSpoolInterval (runConfig run) = reportSpoolInterval config
    ∧ excludePatterns (runConfig run) = excludePatterns config
    ∧ includePatterns (runConfig run) = includePatterns config
    ∧ additionalPaths (runConfig run) = additionalPaths config
    ∧ titlePattern (runConfig run) = titlePattern config.
Proof.
  intros Hcrawl.
  pose proof (crawl_normal_valid _ _ _ _ _ Hcrawl) as Hvalid.
  destruct (crawl_normal_setup _ _ _ _ _ Hcrawl) as (root & -> & -> & _).
  assert (Js.optTruthy (protocol (urlParse myUrl)) = true) as Hp.
  { apply not_false_iff_true. intros Hp. apply Hvalid, invalid_seed_iff.
    by rewrite Hp. }
  assert (Js.optTruthy (hostname (urlParse myUrl)) = true) as Hh.
  { apply not_false_iff_true. intros Hh. apply Hvalid, invalid_seed_iff.
    rewrite Hh. simpl. by rewrite orb_true_r. }
  rewrite Hp.
  destruct (truthy_Some _ Hp) as (p & Hprotocol & Hpne).
  destruct (truthy_Some _ Hh) as (h & Hhostname & Hhne).
  exists p, h. rewrite Hprotocol, Hhostname. simpl.
  repeat split; try done.
  by destruct (port (urlParse myUrl)) as [[|c q]|].
Qed.

Lemma onComplete_keeps_settings (w : World) :
  ∃ w', onComplete w = (Js.Normal tt, w')
        ∧ tlsDefaultCiphers w' = tlsDefaultCiphers w
        ∧ env w' = env w.
Proof.
  unfold onComplete, report, get, bind, clearInterval, call, modify, ret.
  destruct (spooledReportTimer w) as [t|]; simpl;
    (eexists; split; [reflexivity|]); by world_simpl.
Qed.

Lemma invoke_keeps_settings (run : Run) (cb : Callback) (w : World) :
  OwnConditions run →
  ∃ w', invoke run cb w = (Js.Normal tt, w')
        ∧ tlsDefaultCiphers w' = tlsDefaultCiphers w
        ∧ env w' = env w.
Proof.
  intros Hown. destruct (isComplete cb) eqn:Hcb.
  - destruct cb as [[]| |]; try discriminate. apply onComplete_keeps_settings.
  - destruct (invoke_ordinary run cb w Hown Hcb) as (cs & -> & _).
    by eexists.
Qed.

(** X2. Setting a run up relaxes the cipher list for the whole process
    unless [strictCiphers] is set, and turns certificate checking off in
    the process environment when [ignoreInvalidSSL] is configured.
    Neither setting is ever put back: no callback of any run, the
    [complete] event included, changes them again. *)
Theorem tls_settings_outlive_the_run (myUrl : string) (config : Config)
    (w w' : World) (run : Run) (steps : list (Run * Callback)) :
  crawl myUrl config w = (Js.Normal run, w') →
  Forall (fun step => OwnConditions (fst step)) steps →
  tlsDefaultCiphers w' = (if strictCiphers config then tlsDefaultCiphers w else Some "ALL")
  ∧ env w' = (if ignoreInvalidSSL config
              then <["NODE_TLS_REJECT_UNAUTHORIZED" := "0"]> (env w) else env w)
  ∧ ∃ w'', runInterleaved steps w' = (Js.Normal tt, w'')
           ∧ tlsDefaultCiphers w'' = tlsDefaultCiphers w'
           ∧ env w'' = env w'.
Proof.
  intros Hcrawl Hsteps.
  destruct (crawl_normal_setup _ _ _ _ _ Hcrawl) as (root & _ & _ & _ & Htls & Henv & _).
  split; [done|]. split; [done|].
  clear Hcrawl Htls Henv. revert w'.
  induction Hsteps as [|[run' cb] steps Hown _ IH]; intros w'.
  - by exists w'.
  - unfold runInterleaved in *. simpl. unfold bind at 1.
    destruct (invoke_keeps_settings run' cb w' Hown) as (w1 & -> & Htls1 & Henv1).
    destruct (IH w1) as (w2 & -> & Htls2 & Henv2).
    exists w2. split; [done|]. split; congruence.
Qed.

Lemma filter_setInterval_queue (paths : list string) :
  List.filter isSetInterval (QueueURL <$> paths) = [].
Proof. induction paths as [|p paths IH]; [done | by simpl]. Qed.

(** X3. A run arms the spool timer exactly when [reportSpoolInterval] is
    positive, once, with that interval and the handle Node hands out
    next; with an interval of zero or less, setting the run up makes no
    [setInterval] call and leaves the timers and the module's handle as
    they were. *)
Theorem spool_timer_needs_positive_interval (myUrl : string) (config : Config)
    (w w' : World) (run : Run) :
  crawl myUrl config w = (Js.Normal run, w') →
  List.filter isSetInterval (added w w')
  = (if (0 <? reportSpoolInterval config)%Z
     then [SetInterval (nextTimer w) (reportSpoolInterval config)] else [])
  ∧ ((reportSpoolInterval config ≤ 0)%Z → SameTimers w w').
Proof.
  intros Hcrawl.
  pose proof (crawl_normal_valid _ _ _ _ _ Hcrawl) as Hvalid.
  destruct (crawl_normal_setup _ _ _ _ _ Hcrawl) as (root & _ & _ & Hcalls & _).
  split.
  - rewrite (added_of_calls _ _ _ Hcalls). unfold setUpCalls.
    rewrite !List.filter_app, filter_setInterval_queue.
    by destruct (strictCiphers config), (ignoreInvalidSSL config),
         (0 <? reportSpoolInterval config)%Z.
  - intros Hms.
    destruct (crawl_valid myUrl config w Hvalid)
      as (run' & w'' & cs & Hcrawl' & _ & _ & _ & _ & _ & Htimers).
    rewrite Hcrawl in Hcrawl'. injection Hcrawl' as <- <-.
    apply Z.ltb_ge in Hms. by rewrite Hms in Htimers.
Qed.

(** X4. The additional paths of the configuration are queued on the new
    engine in their configured order, after the engine is constructed
    and before it is started; nothing else is queued while a run is set
    up, and nothing at all when the configuration has no such paths. *)
Theorem additional_paths_are_queued_in_order (myUrl : string) (config : Config)
    (w w' : World) (run : Run) :
  crawl myUrl config w = (Js.Normal run, w') →
  ∃ before after,
    added w w'
    = (before ++ [NewSimplecrawler myUrl]
       ++ (QueueURL <$> default [] (additionalPaths config))
       ++ after ++ [Start])%list
    ∧ Forall (fun c => isQueueURL c = false) (before ++ after)%list.
Proof.
  intros Hcrawl.
  destruct (crawl_normal_setup _ _ _ _ _ Hcrawl) as (root & _ & _ & Hcalls & _).
  rewrite (added_of_calls _ _ _ Hcalls). unfold setUpCalls.
  exists ([CursorWrite ("Set config.rootUrl to " ++ root ++ nl)]
          ++ (if strictCiphers config then []
              else [CursorWrite ("Relaxing cipher list to allow any cipher." ++ nl)])
          ++ (if ignoreInvalidSSL config
              then [CursorWrite ("Ignoring invalid certificates." ++ nl)] else []))%list,
         (if (0 <? reportSpoolInterval config)%Z
          then [CursorWrite ("Starting spool reporting every "
                             ++ pretty (reportSpoolInterval config) ++ " ms." ++ nl);
                SetInterval (nextTimer w) (reportSpoolInterval config)]
          else []).
  split; [by rewrite <- !app_assoc|].
  destruct (strictCiphers config), (ignoreInvalidSSL config),
    (0 <? reportSpoolInterval config)%Z; simpl; solve_Forall.
Qed.

Lemma props_inject_other (kvs : list (string * Js.Value)) (crawler : Engine) (k : string) :
  k ∉ kvs.*1 →
  props (foldl (fun c kv => setProp (fst kv) (snd kv) c) crawler kvs) !! k
  = props crawler !! k.
Proof.
  revert crawler. induction kvs as [|[k' v'] kvs IH]; intros crawler Hk; [done|].
  simpl in *. apply not_elem_of_cons in Hk as [Hne Hk].
  rewrite IH by done. simpl. by rewrite lookup_insert_ne.
Qed.

Lemma props_inject_own (kvs : list (string * Js.Value)) (crawler : Engine)
    (k : string) (v : Js.Value) :
  NoDup kvs.*1 →
  (k, v) ∈ kvs →
  props (foldl (fun c kv => setProp (fst kv) (snd kv) c) crawler kvs) !! k = Some v.
Proof.
  revert crawler. induction kvs as [|[k' v'] kvs IH]; intros crawler Hnd Hin.
  - by apply elem_of_nil in Hin.
  - simpl in *. apply NoDup_cons in Hnd as [Hk' Hnd].
    apply elem_of_cons in Hin as [[= -> ->]|Hin].
    + rewrite props_inject_other by done. simpl. apply lookup_insert_eq.
    + by apply IH.
Qed.

Lemma props_indices_other (settings : Js.Object) (indices : list nat)
    (crawler : Engine) (k : string) :
  (∀ index, index ∈ indices → k ≠ pretty index) →
  props (foldl (fun c index => setProp (pretty index) (Js.get settings (pretty index)) c)
               crawler indices) !! k
  = props crawler !! k.
Proof.
  revert crawler. induction indices as [|i indices IH]; intros crawler Hk; [done|].
  simpl. rewrite IH by (intros index Hin; apply Hk; by right).
  simpl. rewrite lookup_insert_ne; [done|]. intros Heq. by apply (Hk i); [left|].
Qed.

Lemma props_indices_own (settings : Js.Object) (indices : list nat)
    (crawler : Engine) (index : nat) :
  index ∈ indices →
  props (foldl (fun c index => setProp (pretty index) (Js.get settings (pretty index)) c)
               crawler indices) !! pretty index
  = Some (Js.get settings (pretty index)).
Proof.
  revert crawler. induction indices as [|i indices IH]; intros crawler Hin.
  - by apply elem_of_nil in Hin.
  - simpl. destruct (decide (index ∈ indices)) as [Hlater|Hlater]; [by apply IH|].
    apply elem_of_cons in Hin as [->|Hin]; [|done].
    rewrite props_indices_other.
    + simpl. apply lookup_insert_eq.
    + intros index Hindex Heq. apply (inj pretty) in Heq. by subst.
Qed.

Lemma startsWithDigit_pretty_N_go (x : N) (s : string) :
  (0 < x)%N ∨ startsWithDigit s = true →
  startsWithDigit (pretty_N_go x s) = true.
Proof.
  revert s. induction (N.lt_wf_0 x) as [x _ IH]; intros s Hs.
  assert (x = 0 ∨ 0 < x)%N as [->|Hx] by lia.
  - rewrite pretty_N_go_0. by destruct Hs as [?|?]; [lia|].
  - rewrite pretty_N_go_step by done. apply IH; [by apply N.div_lt|].
    right. unfold pretty_N_char. by repeat case_match.
Qed.

(** The key of an array index is its decimal notation. *)
Lemma startsWithDigit_pretty (index : nat) : startsWithDigit (pretty index) = true.
Proof.
  unfold pretty, pretty_nat, pretty, pretty_N. case_decide; [done|].
  apply startsWithDigit_pretty_N_go. left. lia.
Qed.

Lemma injectCrawlerConfig_plain (config : Config) (crawler : Engine) :
  Lodash.isArrayLike (settingsOf config) = false →
  injectCrawlerConfig config crawler
  = foldl (fun c kv => setProp (fst kv) (snd kv) c) crawler (settingsOf config).
Proof.
  unfold injectCrawlerConfig, settingsOf, Lodash.forEach.
  destruct (simplecrawlerConfig config) as [settings|]; [|done].
  simpl. by intros ->.
Qed.

Lemma injectCrawlerConfig_arrayLike (config : Config) (crawler : Engine) :
  Lodash.isArrayLike (settingsOf config) = true →
  injectCrawlerConfig config crawler
  = foldl (fun c index =>
             setProp (pretty index) (Js.get (settingsOf config) (pretty index)) c)
          crawler (seq 0 (Lodash.lengthOf (settingsOf config))).
Proof.
  unfold injectCrawlerConfig, settingsOf, Lodash.forEach.
  destruct (simplecrawlerConfig config) as [settings|]; [|done].
  simpl. by intros ->.
Qed.

(** X5. What injecting the engine settings writes onto the engine. The
    settings are an object, so their keys are distinct. When they are
    not array-like for lodash, every configured key ends up on the
    engine with its configured value, and a key they do not mention
    keeps the value the engine had. When they carry a [length] that is
    an integer between [0] and [MAX_SAFE_INTEGER], lodash visits them
    as an array: the engine receives the keys [0] up to [length - 1],
    each with the value the settings have under it, and every other
    key, in particular every key that does not start with a digit,
    keeps the value the engine had, whatever the settings say. *)
Theorem injected_settings_reach_the_engine (config : Config) (crawler : Engine) :
  NoDup (settingsOf config).*1 →
  (Lodash.isArrayLike (settingsOf config) = false →
   (∀ k v, (k, v) ∈ settingsOf config →
           props (injectCrawlerConfig config crawler) !! k = Some v)
   ∧ (∀ k, k ∉ (settingsOf config).*1 →
           props (injectCrawlerConfig config crawler) !! k = props crawler !! k))
  ∧ (Lodash.isArrayLike (settingsOf config) = true →
     (∃ n, Js.get (settingsOf config) "length" = Js.Num n
           ∧ (0 ≤ n ≤ 9007199254740991)%Z
           ∧ Lodash.lengthOf (settingsOf config) = Z.to_nat n)
     ∧ (∀ index, (index < Lodash.lengthOf (settingsOf config))%nat →
                 props (injectCrawlerConfig config crawler) !! pretty index
                 = Some (Js.get (settingsOf config) (pretty index)))
     ∧ (∀ k, (∀ index, (index < Lodash.lengthOf (settingsOf config))%nat →
                       k ≠ pretty index) →
             props (injectCrawlerConfig config crawler) !! k = props crawler !! k)
     ∧ (∀ k, startsWithDigit k = false →
             props (injectCrawlerConfig config crawler) !! k = props crawler !! k)).
Proof.
  intros Hnd. split.
  - intros Hplain. rewrite injectCrawlerConfig_plain by done. split.
    + intros k v Hin. by apply props_inject_own.
    + intros k Hk. by apply props_inject_other.
  - intros Hlike. rewrite injectCrawlerConfig_arrayLike by done.
    split; [|split; [|split]].
    + unfold Lodash.isArrayLike, Lodash.isLength, Lodash.lengthOf in *.
      destruct (Js.get (settingsOf config) "length") as [|b|n|s]; try done.
      exists n. apply andb_prop in Hlike as [Hlow%Z.ltb_lt Hhigh%Z.leb_le].
      unfold Lodash.MAX_SAFE_INTEGER in Hhigh. split; [done|]. split; [lia|done].
    + intros index Hindex. apply props_indices_own, elem_of_seq. lia.
    + intros k Hk. apply props_indices_other. intros index Hin. apply Hk.
      apply elem_of_seq in Hin. lia.
    + intros k Hk. apply props_indices_other. intros index _ ->.
      by rewrite startsWithDigit_pretty in Hk.
Qed.

Lemma props_initIncludeExcludePatterns (config : Config) (crawler : Engine) :
  props (initIncludeExcludePatterns config crawler) = props crawler.
Proof. unfold initIncludeExcludePatterns. by destruct (_ || _). Qed.

(** X6. Which host the same-host test of a run compares with. A [host]
    entry in engine settings that are not array-like replaces the host
    the engine took from the seed URL: a page counts as same-host, and
    so is parsed for links, exactly when its host is the configured
    one. Without such an entry the seed's host decides, and so it does
    when the settings are array-like, whether or not they have a [host]
    entry: that entry is then not written onto the engine. *)
Theorem configured_host_decides_same_host (myUrl : string) (config : Config)
    (w w' : World) (run : Run) (queueItem : QueueItem) :
  crawl myUrl config w = (Js.Normal run, w') →
  NoDup (settingsOf config).*1 →
  (Lodash.isArrayLike (settingsOf config) = false →
   (∀ h, ("host", Js.Str h) ∈ settingsOf config →
         (SameHost (runEngine run) queueItem ↔ host queueItem = h))
   ∧ ("host" ∉ (settingsOf config).*1 →
      (SameHost (runEngine run) queueItem
       ↔ simplecrawlerProps myUrl !! "host" = Some (Js.Str (host queueItem)))))
  ∧ (Lodash.isArrayLike (settingsOf config) = true →
     (SameHost (runEngine run) queueItem
      ↔ simplecrawlerProps myUrl !! "host" = Some (Js.Str (host queueItem)))).
Proof.
  intros Hcrawl Hnd.
  destruct (crawl_normal_setup _ _ _ _ _ Hcrawl) as (root & -> & _).
  unfold SameHost. simpl. rewrite props_initIncludeExcludePatterns.
  split.
  - intros Hplain.
    rewrite (injectCrawlerConfig_plain (withRootUrl root config)) by exact Hplain.
    change (settingsOf (withRootUrl root config)) with (settingsOf config).
    split.
    + intros h Hin. rewrite (props_inject_own _ _ _ _ Hnd Hin).
      split; [by intros [= ->] | by intros ->].
    + intros Hnone. by rewrite props_inject_other.
  - intros Hlike.
    rewrite (injectCrawlerConfig_arrayLike (withRootUrl root config)) by exact Hlike.
    rewrite props_indices_other; [done|].
    intros index _ Heq. pose proof (startsWithDigit_pretty index) as Hdigit.
    by rewrite <- Heq in Hdigit.
Qed.

Lemma length_baseUniq {A} `{EqDecision A} (seen l : list A) :
  (length (Lodash.baseUniq seen l) ≤ length l)%nat.
Proof.
  revert seen. induction l as [|x l IH]; intros seen; simpl; [done|].
  case_bool_decide; simpl; [specialize (IH seen) | specialize (IH (x :: seen))]; lia.
Qed.

(** X7. On a same-host HTML page a URL is returned exactly when the
    engine discovered it on the pruned page and it does not match
    [mailtoMatcher]; a [null] is returned exactly when some discovered
    URL does match; and the returned list is never longer than what the
    engine discovered. No other URL is lost or invented. *)
Theorem returned_urls_are_the_other_candidates (config : Config) (crawler : Engine)
    (rnd : nat → nat) (buf : Buffer) (queueItem : QueueItem) (w : World) :
  IsHtml queueItem →
  SameHost crawler queueItem →
  ∃ l,
    fst (discoverResources config crawler rnd buf queueItem w) = Js.Normal l
    ∧ (∀ u, Some u ∈ l ↔
            u ∈ oldDiscoverResources (cheerioHtml (Cheerio.remove (pageOf buf))) queueItem
            ∧ mailtoMatcher u = false)
    ∧ (None ∈ l ↔
       ∃ u, u ∈ oldDiscoverResources (cheerioHtml (Cheerio.remove (pageOf buf))) queueItem
            ∧ mailtoMatcher u = true)
    ∧ (length l
       ≤ length (oldDiscoverResources (cheerioHtml (Cheerio.remove (pageOf buf)))
                                      queueItem))%nat.
Proof.
  intros Hct Hhost. eexists.
  rewrite discoverResources_same_host by done. simpl. split; [done|].
  unfold candidates. split; [|split].
  - intros u. rewrite shuffle_Permutation, elem_of_uniq, list_elem_of_fmap. split.
    + intros (v & Heq & Hv). destruct (mailtoMatcher v) eqn:Hmail; [done|].
      injection Heq as ->. done.
    + intros [Hu Hmail]. exists u. by rewrite Hmail.
  - rewrite shuffle_Permutation, elem_of_uniq, list_elem_of_fmap. split.
    + intros (v & Heq & Hv). exists v. by destruct (mailtoMatcher v).
    + intros (v & Hv & Hmail). exists v. by rewrite Hmail.
  - rewrite shuffle_Permutation. unfold Lodash.uniq.
    etrans; [apply length_baseUniq|]. by rewrite length_fmap.
Qed.

Lemma testLiteralCI_anywhere (lit pre rest : string) :
  Js.startsWithCI lit rest = true → Js.testLiteralCI lit (pre ++ rest) = true.
Proof.
  intros Hrest. induction pre as [|c pre IH].
  - change ("" ++ rest) with rest. destruct rest; simpl; by rewrite Hrest.
  - change (String c pre ++ rest) with (String c (pre ++ rest)).
    simpl. rewrite IH. apply orb_true_r.
Qed.

(** X8. The mailto test is a search, not a test of the scheme: a
    discovered URL that contains [mailto:] anywhere, in any mix of upper
    and lower case, for instance in its query string, is never
    returned. *)
Theorem url_containing_mailto_is_dropped (config : Config) (crawler : Engine)
    (rnd : nat → nat) (buf : Buffer) (queueItem : QueueItem) (w : World)
    (l : list (option string)) (before rest : string) :
  fst (discoverResources config crawler rnd buf queueItem w) = Js.Normal l →
  Js.startsWithCI "mailto:" rest = true →
  Some (before ++ rest) ∉ l.
Proof.
  intros Hl Hrest Hin.
  pose proof (mailto_urls_are_dropped _ _ _ _ _ _ _ _ Hl Hin) as Hmail.
  unfold mailtoMatcher in Hmail.
  by rewrite testLiteralCI_anywhere in Hmail.
Qed.

Lemma removeLiteralFrom_absent (lit s : string) :
  (∀ before after, s ≠ before ++ lit ++ after) →
  Js.removeLiteralFrom lit 0 s = s.
Proof.
  induction s as [|c s IH]; intros Habsent; [done|]. simpl.
  destruct (Js.startsWith lit (String c s)) eqn:Hprefix.
  - apply startsWith_prefix in Hprefix as [after Hafter].
    destruct (Habsent "" after). exact Hafter.
  - rewrite andb_false_r. f_equal. apply IH.
    intros before after Heq. apply (Habsent (String c before) after).
    rewrite Heq. reflexivity.
Qed.

(** X9. Removing the [URL(s)] token changes nothing in a page that does
    not contain it: the document parsed is then the document of the
    fetched text itself. *)
Theorem page_without_token_is_parsed_as_is (buf : Buffer) :
  (∀ before after, toStringUtf8 buf ≠ before ++ "URL(s)" ++ after) →
  pageOf buf = cheerioLoad (toStringUtf8 buf).
Proof.
  intros Habsent. unfold pageOf, Js.removeLiteral.
  by rewrite removeLiteralFrom_absent.
Qed.

(** X10. Callbacks other than the [complete] event (page discovery, the
    fetch filter, error and success events) always return normally and
    only record calls on the hash processor, the error handler and the
    logger: the exit code, the timers, the module's timer handle, the
    TLS settings and the environment are as before. *)
Theorem page_callbacks_only_record_calls (steps : list (Run * Callback)) (w : World) :
  Forall (fun step => OwnConditions (fst step) ∧ isComplete (snd step) = false) steps →
  ∃ cs, runInterleaved steps w = (Js.Normal tt, appendCalls cs w)
        ∧ Forall (fun c => isLifecycle c = false) cs.
Proof.
  intros Hsteps. revert w.
  induction Hsteps as [|[run cb] steps [Hown Hcb] _ IH]; intros w.
  - exists []. by rewrite appendCalls_nil.
  - unfold runInterleaved in *. simpl. unfold bind at 1.
    destruct (invoke_ordinary run cb w Hown Hcb) as (cs1 & -> & Hcs1).
    destruct (IH (appendCalls cs1 w)) as (cs2 & -> & Hcs2).
    exists (cs1 ++ cs2)%list. rewrite appendCalls_appendCalls.
    split; [done|]. by apply Forall_app.
Qed.

Lemma filter_error_links (source : string) (resources : list (option string)) :
  List.filter isErrorCall ((fun u => RegisterLink source u) <$> resources) = [].
Proof. induction resources as [|u resources IH]; [done | by simpl]. Qed.

Lemma on_error_calls (e : Event) (w : World) :
  ∃ w' cs,
    on e w = (Js.Normal tt, w')
    ∧ calls w' = (calls w ++ cs)%list
    ∧ length (List.filter isErrorCall cs) = (if isErrorEvent e then 1 else 0).
Proof.
  destruct e; simpl;
    try (eexists _, [_]; split; [reflexivity|]; split; reflexivity).
  - rewrite (forEach_call (fun u => RegisterLink (url queueItem) u)).
    eexists _, _. split; [reflexivity|]. split; [reflexivity|].
    by rewrite filter_error_links.
  - destruct (onComplete_runs w) as (w' & -> & Hcalls & _).
    eexists _, _. split; [reflexivity|]. split; [exact Hcalls|].
    unfold cancelled. by destruct (spooledReportTimer w).
Qed.

(** X11. Over any sequence of engine events the error handler receives
    exactly one call per failure event ([fetch404], [fetcherror],
    [fetchdataerror], [gziperror], [fetchtimeout], [fetchclienterror],
    [queueerror]) and none for the others: a completed fetch, a redirect,
    a page disallowed by robots.txt, a finished discovery and the
    completion of the crawl are not reported as errors. *)
Theorem one_error_call_per_failure_event (events : list Event) (w : World) :
  ∃ w', forEach events on w = (Js.Normal tt, w')
        ∧ length (List.filter isErrorCall (added w w'))
          = length (List.filter isErrorEvent events).
Proof.
  assert (∀ w, ∃ w' cs, forEach events on w = (Js.Normal tt, w')
                        ∧ calls w' = (calls w ++ cs)%list
                        ∧ length (List.filter isErrorCall cs)
                          = length (List.filter isErrorEvent events)) as Hgen.
  { induction events as [|e events IH]; intros w0.
    - exists w0, []. by rewrite app_nil_r.
    - simpl. unfold bind at 1.
      destruct (on_error_calls e w0) as (w1 & cs1 & -> & Hcalls1 & Hcount1).
      destruct (IH w1) as (w2 & cs2 & -> & Hcalls2 & Hcount2).
      exists w2, (cs1 ++ cs2)%list. split; [done|].
      split; [by rewrite Hcalls2, Hcalls1, app_assoc|].
      rewrite List.filter_app, length_app, Hcount1, Hcount2.
      by destruct (isErrorEvent e). }
  destruct (Hgen w) as (w' & cs & Hrun & Hcalls & Hcount).
  exists w'. by rewrite (added_of_calls _ _ _ Hcalls).
Qed.

(** X13. A run on its own cleans up after itself: when no armed interval
    has the handle Node hands out next, a run with a positive spool
    interval leaves, after its page callbacks and its [complete] event,
    exactly the intervals armed that were armed before it was set up;
    its own interval is cancelled on completion. *)
Theorem single_run_cancels_its_timer (myUrl : string) (config : Config)
    (w0 w1 w2 w3 : World) (run : Run) (steps : list (Run * Callback)) :
  nextTimer w0 ∉ timers w0 →
  (0 < reportSpoolInterval config)%Z →
  crawl myUrl config w0 = (Js.Normal run, w1) →
  Forall (fun step => fst step = run ∧ isComplete (snd step) = false) steps →
  runInterleaved steps w1 = (Js.Normal tt, w2) →
  invoke run (Emit complete) w2 = (Js.Normal tt, w3) →
  timers w3 = timers w0
  ∧ added w2 w3 = [ClearInterval (nextTimer w0); FindErrors; Report].
Proof.
  intros Hfresh Hms Hcrawl Hsteps Hrun Hcomplete.
  pose proof (crawl_normal_valid _ _ _ _ _ Hcrawl) as Hvalid.
  destruct (crawl_valid myUrl config w0 Hvalid)
    as (run' & w1' & cs & Hcrawl' & _ & _ & _ & _ & Hown & Htimers).
  rewrite Hcrawl in Hcrawl'. injection Hcrawl' as <- <-.
  apply Z.ltb_lt in Hms. rewrite Hms in Htimers.
  destruct Htimers as (Hspool1 & Harmed1 & _).
  destruct (runInterleaved_ordinary steps w1) as (w2' & Hrun' & Hspool2 & Harmed2 & _).
  { eapply Forall_impl; [exact Hsteps|]. by intros step [-> ?]. }
  rewrite Hrun in Hrun'. injection Hrun' as <-.
  destruct (invoke_runs run (Emit complete) w2 Hown)
    as (w3' & cs3 & Hcomplete' & Hcalls3 & _ & _ & Hcs3 & Harmed3).
  rewrite Hcomplete in Hcomplete'. injection Hcomplete' as <-.
  unfold cancelled in Hcs3. unfold stillArmed in Harmed3.
  rewrite Hspool2, Hspool1 in Hcs3, Harmed3.
  split.
  - rewrite Harmed3, Harmed2, Harmed1. set_solver.
  - by rewrite (added_of_calls _ _ _ Hcalls3), Hcs3.
Qed.

(** X14. The module never releases the timer handle: after a [complete]
    event the variable still holds it, so a second [complete] event
    calls [clearInterval] on the same handle again (which disarms
    nothing further) and calls [findErrors()] and [report()] a second
    time. *)
Theorem handle_is_never_released (w : World) :
  ∃ w1 w2,
    onComplete w = (Js.Normal tt, w1)
    ∧ onComplete w1 = (Js.Normal tt, w2)
    ∧ spooledReportTimer w2 = spooledReportTimer w
    ∧ timers w2 = timers w1
    ∧ added w1 w2 = (cancelled w ++ [FindErrors; Report])%list.
Proof.
  destruct (onComplete_runs w) as (w1 & Hrun1 & _ & _ & Htimers1 & Hspool1 & _).
  destruct (onComplete_runs w1) as (w2 & Hrun2 & Hcalls2 & _ & Htimers2 & Hspool2 & _).
  exists w1, w2. split; [done|]. split; [done|]. split; [congruence|].
  split.
  - rewrite Htimers2. unfold stillArmed. rewrite Hspool1, Htimers1.
    clear. unfold stillArmed.
    destruct (spooledReportTimer w) as [t|]; [|done].
    apply set_eq. intros x. rewrite !elem_of_difference. tauto.
  - rewrite (added_of_calls _ _ _ Hcalls2). unfold cancelled. by rewrite Hspool1.
Qed.

(** X15. A run without spool reporting still cancels a timer when it
    completes: the handle in the module's variable. If an earlier run
    with a positive spool interval is still under way, the completion of
    a later run set up with an interval of zero or less cancels the
    earlier run's interval. *)
Theorem spoolless_run_cancels_the_other_timer (url1 url2 : string)
    (config1 config2 : Config) (w0 w1 w2 w3 : World) (run1 run2 : Run) :
  (0 < reportSpoolInterval config1)%Z →
  (reportSpoolInterval config2 ≤ 0)%Z →
  crawl url1 config1 w0 = (Js.Normal run1, w1) →
  crawl url2 config2 w1 = (Js.Normal run2, w2) →
  invoke run2 (Emit complete) w2 = (Js.Normal tt, w3) →
  nextTimer w0 ∈ timers w2
  ∧ (nextTimer w0 ∉ timers w3)
  ∧ added w2 w3 = [ClearInterval (nextTimer w0); FindErrors; Report].
Proof.
  intros Hms1 Hms2 Hcrawl1 Hcrawl2 Hcomplete.
  pose proof (crawl_normal_valid _ _ _ _ _ Hcrawl1) as Hvalid1.
  pose proof (crawl_normal_valid _ _ _ _ _ Hcrawl2) as Hvalid2.
  destruct (crawl_valid url1 config1 w0 Hvalid1)
    as (run1' & w1' & cs1 & Hcrawl1' & _ & _ & _ & _ & _ & Htimers1).
  rewrite Hcrawl1 in Hcrawl1'. injection Hcrawl1' as <- <-.
  destruct (crawl_valid url2 config2 w1 Hvalid2)
    as (run2' & w2' & cs2 & Hcrawl2' & _ & _ & _ & _ & Hown2 & Htimers2).
  rewrite Hcrawl2 in Hcrawl2'. injection Hcrawl2' as <- <-.
  apply Z.ltb_lt in Hms1. apply Z.ltb_ge in Hms2.
  rewrite Hms1 in Htimers1. rewrite Hms2 in Htimers2.
  destruct Htimers1 as (Hspool1 & Harmed1 & _).
  destruct Htimers2 as (Hspool2 & Harmed2 & _).
  destruct (invoke_runs run2 (Emit complete) w2 Hown2)
    as (w3' & cs3 & Hcomplete' & Hcalls3 & _ & _ & Hcs3 & Harmed3).
  rewrite Hcomplete in Hcomplete'. injection Hcomplete' as <-.
  unfold cancelled in Hcs3. unfold stillArmed in Harmed3.
  rewrite Hspool2, Hspool1 in Hcs3, Harmed3.
  split; [rewrite Harmed2, Harmed1; set_solver|].
  split; [rewrite Harmed3; set_solver|].
  by rewrite (added_of_calls _ _ _ Hcalls3), Hcs3.
Qed.

(** X16. The fetch condition tests what [getFirstMatchingPattern]
    returned for truthiness, not for presence: when the first exclude
    pattern that matches a URL is a falsy value (the empty string) and
    no include pattern is configured, the URL is fetched and not logged
    as ignored, although an exclude pattern matches it. *)
Theorem falsy_exclude_match_does_not_exclude (config : Config) (crawler : Engine)
    (parsedURL : QueueItem) (w : World) (excludes : list Pattern) (p : Pattern) :
  fetchConditions crawler = [] →
  excludePatterns config = Some excludes →
  default [] (includePatterns config) = [] →
  getFirstMatchingPattern excludes (url parsedURL) (rootUrl config) = Some p →
  patternTruthy p = false →
  patternMatches p (url parsedURL) (rootUrl config) = true
  ∧ p ∈ excludes
  ∧ allowedBy (fetchConditions (initIncludeExcludePatterns config crawler)) parsedURL w
    = (Js.Normal true, w).
Proof.
  intros Hfresh Hexcludes Hincludes Hfirst Hfalsy.
  pose proof Hfirst as Hfound. unfold getFirstMatchingPattern in Hfound.
  apply List.find_some in Hfound as [Hin Hmatch].
  split; [done|]. split; [by apply list_elem_of_In|].
  unfold initIncludeExcludePatterns.
  assert (nonEmpty (includePatterns config) = false) as ->.
  { by destruct (includePatterns config) as [[|i rest]|]. }
  assert (nonEmpty (excludePatterns config) = true) as ->.
  { rewrite Hexcludes. destruct excludes; [done|]. reflexivity. }
  cbn [orb]. unfold addFetchCondition. cbn [fetchConditions].
  rewrite Hfresh. cbn [app].
  destruct (allowedBy_fetchCondition config true false parsedURL w) as (fetch & -> & ->).
  rewrite Hexcludes. simpl. rewrite Hfirst. simpl. by rewrite Hfalsy.
Qed.

(** X17. The [null] left in place of a mailto URL travels on: when the
    engine reports the discovery with the list [discoverResources]
    returned, the [discoverycomplete] listener registers one link per
    entry, and for a page with a mailto candidate one of them is a link
    from the page to [null]. *)
Theorem null_entry_is_registered_as_link (config : Config) (crawler : Engine)
    (rnd : nat → nat) (buf : Buffer) (queueItem : QueueItem) (w w' : World)
    (l : list (option string)) (u : string) :
  IsHtml queueItem →
  SameHost crawler queueItem →
  u ∈ oldDiscoverResources (cheerioHtml (Cheerio.remove (pageOf buf))) queueItem →
  mailtoMatcher u = true →
  discoverResources config crawler rnd buf queueItem w = (Js.Normal l, w') →
  ∃ w'', on (discoverycomplete queueItem l) w' = (Js.Normal tt, w'')
         ∧ added w' w'' = (fun target => RegisterLink (url queueItem) target) <$> l
         ∧ RegisterLink (url queueItem) None ∈ added w' w''.
Proof.
  intros Hct Hhost Hu Hmail Hrun.
  rewrite discoverResources_same_host in Hrun by done.
  injection Hrun as <- <-. simpl.
  rewrite (forEach_call (fun target => RegisterLink (url queueItem) target)).
  eexists. split; [reflexivity|]. rewrite added_appendCalls. split; [done|].
  apply (list_elem_of_fmap_2 (fun target => RegisterLink (url queueItem) target)).
  rewrite shuffle_Permutation, elem_of_uniq. unfold candidates.
  apply list_elem_of_fmap. exists u. by rewrite Hmail.
Qed.

(** X18. Exclusion wins over inclusion: on a fresh engine, with exclude
    patterns that are truthy values, a URL matched by some exclude
    pattern is refused and logged as ignored once, whatever the include
    patterns are and whether or not one of them matches the URL too. *)
Theorem exclude_wins_over_include (config : Config) (crawler : Engine)
    (parsedURL : QueueItem) (w : World) (p : Pattern) :
  fetchConditions crawler = [] →
  (∀ q, q ∈ default [] (excludePatterns config) → patternTruthy q = true) →
  p ∈ default [] (excludePatterns config) →
  patternMatches p (url parsedURL) (rootUrl config) = true →
  allowedBy (fetchConditions (initIncludeExcludePatterns config crawler)) parsedURL w
  = (Js.Normal false, record (LogIgnore parsedURL) w).
Proof.
  intros Hfresh Htruthy Hp Hmatch.
  assert (nonEmpty (excludePatterns config) = true) as Hexcludes.
  { destruct (excludePatterns config) as [[|e es]|]; simpl in *;
      [by apply elem_of_nil in Hp | done | by apply elem_of_nil in Hp]. }
  assert (found (getFirstMatchingPattern (default [] (excludePatterns config))
                   (url parsedURL) (rootUrl config)) = true) as Hfound.
  { apply found_getFirstMatchingPattern; eauto. }
  unfold initIncludeExcludePatterns. rewrite Hexcludes. cbn [orb].
  unfold addFetchCondition. cbn [fetchConditions]. rewrite Hfresh. cbn [app].
  destruct (allowedBy_fetchCondition config true (nonEmpty (includePatterns config))
              parsedURL w) as (fetch & -> & ->).
  by rewrite Hfound.
Qed.

End Orchestrator.

(** ** The orchestrator on the small site *)

Section OnSite.

Import Fixture.

Local Abbreviation discoverOnSite :=
  (discoverResources string Js.stringTruthy id string id load html discovered titleFailure).

Local Abbreviation crawlSite :=
  (crawl string Js.stringTruthy glob parse engineProps).

Local Abbreviation homeItem := (item "https://site.test/" "site.test" "text/html; charset=utf-8").

Local Abbreviation externalItem :=
  (item "https://external.example/page" "external.example" "text/html").

Local Abbreviation logoItem := (item "https://site.test/logo.png" "site.test" "image/png").

(** C2. On the spec's mailto example (a same-host HTML page for which
    the engine discovers [mailto:a@b.com], [https://x/y] and
    [mailto:c@d.com]) the code returns, whatever the shuffle draws, a
    list of two entries: the remaining URL and a [null]. *)
Theorem mailto_example_returns_null (rnd : nat → nat) (w : World) :
  ∃ l, fst (discoverOnSite config siteEngine rnd homeHtml homeItem w) = Js.Normal l
       ∧ l ≡ₚ [None; Some "https://x/y"]
       ∧ None ∈ l.
Proof.
  destruct (mailto_example_result string Js.stringTruthy id string id load html
              discovered titleFailure config siteEngine rnd homeHtml homeItem w)
    as (l & Hl & Hperm).
  - by exists "; charset=utf-8".
  - reflexivity.
  - reflexivity.
  - exists l. split; [done|]. split; [done|]. rewrite Hperm. set_solver.
Qed.

Example url_token_is_removed :
  Js.removeLiteral "URL(s)" "see URL(s) and URL(URL(s)s)" = "see  and URL(s)".
Proof. reflexivity. Qed.

Example home_page_first_draw :
  fst (discoverOnSite config siteEngine firstDraw homeHtml homeItem initialWorld)
  = Js.Normal [None; Some "https://x/y"].
Proof. reflexivity. Qed.

Example home_page_last_draw :
  fst (discoverOnSite config siteEngine lastDraw homeHtml homeItem initialWorld)
  = Js.Normal [Some "https://x/y"; None].
Proof. reflexivity. Qed.

Example private_secret_is_refused :
  allowedBy
    (fetchConditions (initIncludeExcludePatterns string Js.stringTruthy glob config siteEngine))
    (item "/private/secret" "site.test" "") initialWorld
  = (Js.Normal false,
     record (LogIgnore (item "/private/secret" "site.test" "")) initialWorld).
Proof. reflexivity. Qed.

Example other_is_refused :
  fst (allowedBy
         (fetchConditions
            (initIncludeExcludePatterns string Js.stringTruthy glob config siteEngine))
         (item "/other" "site.test" "") initialWorld)
  = Js.Normal false.
Proof. reflexivity. Qed.

Example public_page_is_fetched :
  allowedBy
    (fetchConditions (initIncludeExcludePatterns string Js.stringTruthy glob config siteEngine))
    (item "/public/index" "site.test" "") initialWorld
  = (Js.Normal true, initialWorld).
Proof. reflexivity. Qed.

Lemma non_html_document_is_skipped_on_image :
  discoverOnSite config siteEngine firstDraw homeHtml logoItem initialWorld
  = (Js.Normal [], initialWorld)
  ∧ added initialWorld
      (snd (discoverOnSite config siteEngine firstDraw homeHtml logoItem initialWorld)) = [].
Proof.
  apply (non_html_document_is_skipped string Js.stringTruthy id string id load html
           discovered titleFailure).
  intros rest Hrest. vm_compute in Hrest. discriminate Hrest.
Defined.

Lemma off_host_page_declares_ids_on_site :
  (fst (discoverOnSite config siteEngine firstDraw externalHtml externalItem initialWorld)
   = Js.Normal []
   ∧ added initialWorld
       (snd (discoverOnSite config siteEngine firstDraw externalHtml externalItem initialWorld))
     = [FindSupportedHashes "https://external.example/page" externalDoc]
   ∧ "frag" ∈ declaredOn
       (calls (snd (discoverOnSite config siteEngine firstDraw externalHtml externalItem
                      initialWorld)))
       "https://external.example/page")
  ∧ RegisterExpectedHash "https://external.example/page#frag" homeItem
    ∈ added initialWorld
        (snd (discoverOnSite config siteEngine firstDraw homeHtml homeItem initialWorld)).
Proof.
  split.
  - destruct (off_host_page_declares_ids string Js.stringTruthy id string id load html
                discovered titleFailure config siteEngine firstDraw externalHtml
                externalItem initialWorld) as [Hoff _].
    { by exists "". }
    destruct Hoff as (Hlist & Hcalls & Hdeclared).
    { intros Hhost. vm_compute in Hhost. discriminate Hhost. }
    split; [exact Hlist|]. split; [exact Hcalls|].
    apply Hdeclared. vm_compute. constructor.
  - destruct (off_host_page_declares_ids string Js.stringTruthy id string id load html
                discovered titleFailure config siteEngine firstDraw homeHtml
                homeItem initialWorld) as [_ Hsame].
    { by exists "; charset=utf-8". }
    apply Hsame; [reflexivity|]. vm_compute. constructor.
Defined.

Lemma title_mismatch_is_recorded_once_on_site :
  List.filter isTitleCall
    (added initialWorld
       (snd (discoverOnSite config siteEngine firstDraw homeHtml homeItem initialWorld)))
  = [GetTitleValidationFailure homeDoc;
     HandleTitleError "https://site.test/" "pattern: Home failed on title: Welcome"]
  ∧ List.filter isTitleCall
      (added initialWorld
         (snd (discoverOnSite plainConfig siteEngine firstDraw homeHtml homeItem initialWorld)))
    = [].
Proof.
  split.
  - destruct (title_mismatch_is_recorded_once string Js.stringTruthy id string id load html
                discovered titleFailure config siteEngine firstDraw homeHtml
                homeItem initialWorld) as [Hmismatch _].
    { by exists "; charset=utf-8". }
    exact (Hmismatch eq_refl eq_refl).
  - destruct (title_mismatch_is_recorded_once string Js.stringTruthy id string id load html
                discovered titleFailure plainConfig siteEngine firstDraw homeHtml
                homeItem initialWorld) as [_ Hnone].
    { by exists "; charset=utf-8". }
    apply Hnone. left. reflexivity.
Defined.

Lemma discovered_set_is_stable_on_site :
  ∃ l1 l2,
    fst (discoverOnSite config siteEngine firstDraw homeHtml homeItem initialWorld)
    = Js.Normal l1
    ∧ fst (discoverOnSite config siteEngine lastDraw homeHtml homeItem initialWorld)
      = Js.Normal l2
    ∧ NoDup l1 ∧ NoDup l2
    ∧ l1 ≡ₚ l2
    ∧ (IsHtml homeItem →
       ∀ u, u ∈ l1 ↔ u ∈ candidates html discovered homeItem
                           (Cheerio.remove (pageOf string id load homeHtml))).
Proof.
  apply (discovered_set_is_stable string Js.stringTruthy id string id load html
           discovered titleFailure).
  reflexivity.
Defined.

Lemma ids_before_pruning_links_after_on_site :
  discoverOnSite config siteEngine firstDraw homeHtml homeItem initialWorld
  = (Js.Normal [None; Some "https://x/y"],
     appendCalls
       [FindSupportedHashes "https://site.test/" homeDoc;
        GetTitleValidationFailure homeDoc;
        HandleTitleError "https://site.test/" "pattern: Home failed on title: Welcome";
        RegisterExpectedHash "https://external.example/page#frag" homeItem;
        OldDiscoverResources
          "<title>Welcome</title><a href='https://external.example/page#frag'>out</a>"
          homeItem]
       initialWorld)
  ∧ Cheerio.anchorHrefs homeDoc = ["https://external.example/page#frag"; "/hidden#x"]
  ∧ Cheerio.anchorHrefs (Cheerio.remove homeDoc) = ["https://external.example/page#frag"]
  ∧ HashProcessor.supportedHashes homeDoc = ["sample"]
  ∧ "sample" ∈ HashProcessor.supportedHashes (pageOf string id load homeHtml)
  ∧ ("/hidden#x" ∉ Cheerio.anchorHrefs (Cheerio.remove (pageOf string id load homeHtml)))
  ∧ ¬ Cheerio.OccursIn false (Cheerio.remove (pageOf string id load homeHtml))
                       (Cheerio.Element "pre" []
                          [Cheerio.Element "a" [("id", "sample"); ("href", "/hidden#x")]
                                           [Cheerio.Text "in"]]).
Proof.
  destruct (ids_before_pruning_links_after string Js.stringTruthy id string id load html
              parse engineProps discovered titleFailure config siteEngine firstDraw
              homeHtml homeItem initialWorld)
    as (Hrun & Hids & _ & _ & Hnone & _).
  - by exists "; charset=utf-8".
  - reflexivity.
  - split; [etrans; [exact Hrun | vm_compute; reflexivity]|].
    split; [reflexivity|]. split; [reflexivity|]. split; [reflexivity|].
    split; [|split].
    + apply (Hids "sample" true "a" [("id", "sample"); ("href", "/hidden#x")]
                  [Cheerio.Text "in"]); [|by left].
      exists (Cheerio.Element "pre" []
                [Cheerio.Element "a" [("id", "sample"); ("href", "/hidden#x")]
                                 [Cheerio.Text "in"]]).
      split; [do 2 apply list_elem_of_further; apply list_elem_of_here|].
      apply (Cheerio.occurs_below "pre" [] _ _ false _ (list_elem_of_here _ _)).
      exact (Cheerio.occurs_here
               (Cheerio.Element "a" [("id", "sample"); ("href", "/hidden#x")]
                                [Cheerio.Text "in"])).
    + change ("/hidden#x" ∉ ["https://external.example/page#frag"]).
      apply not_elem_of_cons. split; [discriminate | apply not_elem_of_nil].
    + apply Hnone. by left.
Defined.

Example pruning_removes_pre_code_svg :
  Cheerio.remove snippetsDoc
  = [ Cheerio.Element "title" [] [Cheerio.Text "Home"];
      Cheerio.Element "div" [("id", "main")]
        [Cheerio.Element "a" [("href", "/guide#intro")] [Cheerio.Text "guide"]];
      Cheerio.Element "p" [] [] ]
  ∧ Cheerio.anchorHrefs snippetsDoc = ["/guide#intro"; "/pre#x"; "/code#y"; "/svg#z"]
  ∧ Cheerio.anchorHrefs (Cheerio.remove snippetsDoc) = ["/guide#intro"]
  ∧ HashProcessor.supportedHashes snippetsDoc = ["main"; "in-pre"; "in-code"; "in-svg"]
  ∧ HashProcessor.supportedHashes (Cheerio.remove snippetsDoc) = ["main"]
  ∧ html (Cheerio.remove snippetsDoc)
    = "<title>Home</title><div id='main'><a href='/guide#intro'>guide</a></div><p></p>".
Proof. repeat split; reflexivity. Qed.

Lemma fetch_condition_include_exclude_on_site :
  (default [] (excludePatterns config) = [] →
   default [] (includePatterns config) = [] →
   initIncludeExcludePatterns string Js.stringTruthy glob config siteEngine = siteEngine)
  ∧ ∃ fetch : bool,
      allowedBy
        (fetchConditions
           (initIncludeExcludePatterns string Js.stringTruthy glob config siteEngine))
        (item "/private/secret" "site.test" "") initialWorld
      = (Js.Normal fetch,
         if fetch then initialWorld
         else record (LogIgnore (item "/private/secret" "site.test" "")) initialWorld)
      ∧ (fetch = true ↔
         (default [] (excludePatterns config) = []
          ∨ ∀ p, p ∈ default [] (excludePatterns config) →
                 glob p "/private/secret" (rootUrl config) = false)
         ∧ (default [] (includePatterns config) = []
            ∨ ∃ p, p ∈ default [] (includePatterns config)
                   ∧ glob p "/private/secret" (rootUrl config) = true)).
Proof.
  apply (fetch_condition_include_exclude string Js.stringTruthy id glob load html parse
           engineProps discovered config siteEngine
           (item "/private/secret" "site.test" "") initialWorld).
  - intros p Hp. simpl in Hp.
    apply list_elem_of_In in Hp. simpl in Hp.
    destruct Hp as [<-|[<-|[]]]; reflexivity.
  - reflexivity.
Defined.

Lemma seed_url_is_validated_on_site :
  (initCrawler string parse engineProps "site.test" config initialWorld
   = (Js.Throw "Invalid URL.", initialWorld)
   ∧ crawlSite "site.test" config initialWorld = (Js.Throw "Invalid URL.", initialWorld))
  ∧ ∃ run w',
      crawlSite "https://site.test/" config initialWorld = (Js.Normal run, w')
      ∧ NewSimplecrawler "https://site.test/" ∈ added initialWorld w'
      ∧ last (calls w') = Some Start.
Proof.
  split.
  - apply (seed_url_is_validated string Js.stringTruthy glob load html parse engineProps
             discovered "site.test" config initialWorld).
    left. left. reflexivity.
  - apply (seed_url_is_validated string Js.stringTruthy glob load html parse engineProps
             discovered "https://site.test/" config initialWorld).
    intros [[H|H]|[[H|H]|[H|H]]]; vm_compute in H; discriminate H.
Defined.

Lemma completion_reports_once_on_site :
  ∃ run w1,
    crawlSite "https://site.test/" config initialWorld = (Js.Normal run, w1)
    ∧ (∃ w', onComplete exitCodeOf w1 = (Js.Normal tt, w')
             ∧ added w1 w' = (cancelled w1 ++ [FindErrors; Report])%list
             ∧ timers w' = stillArmed w1
             ∧ exitCode w'
               = Some (exitCodeOf (calls w1 ++ cancelled w1 ++ [FindErrors])%list))
    ∧ List.filter isFindErrors (added initialWorld w1) = []
    ∧ length (List.filter isFindErrors
                (added w1
                   (snd (runCallbacks string Js.stringTruthy id string id load html
                           discovered titleFailure exitCodeOf run
                           [Discover string firstDraw homeHtml homeItem;
                            Emit string (fetchcomplete homeItem);
                            Emit string complete] w1))))
      = length (List.filter (isComplete string)
                  [Discover string firstDraw homeHtml homeItem;
                   Emit string (fetchcomplete homeItem);
                   Emit string complete]).
Proof.
  eexists _, _. split; [vm_compute; reflexivity|].
  apply (completion_reports_once string Js.stringTruthy id glob string id load
           html parse engineProps discovered titleFailure exitCodeOf
           "https://site.test/" config initialWorld).
  reflexivity.
Defined.

Lemma second_run_orphans_first_timer_on_site :
  ∃ run1 w1 w1' run2 w2,
    crawlSite "https://site.test/" config initialWorld = (Js.Normal run1, w1)
    ∧ runInterleaved string Js.stringTruthy id string id load html discovered
        titleFailure exitCodeOf
        [(run1, Discover string firstDraw homeHtml homeItem)] w1
      = (Js.Normal tt, w1')
    ∧ crawlSite "https://other.test:8443/docs" config w1' = (Js.Normal run2, w2)
    ∧ spooledReportTimer w1' = Some (nextTimer initialWorld)
    ∧ nextTimer initialWorld ∈ timers w1'
    ∧ spooledReportTimer w2 = Some (nextTimer w1')
    ∧ nextTimer w1' ≠ nextTimer initialWorld
    ∧ ∃ w3,
        runInterleaved string Js.stringTruthy id string id load html discovered
          titleFailure exitCodeOf
          [(run2, Emit string (fetchcomplete externalItem));
           (run1, Emit string complete);
           (run2, Emit string complete)] w2
        = (Js.Normal tt, w3)
        ∧ spooledReportTimer w3 = Some (nextTimer w1')
        ∧ nextTimer initialWorld ∈ timers w3
        ∧ (ClearInterval (nextTimer initialWorld) ∉ added w2 w3)
        ∧ (existsb (isComplete string)
             (snd <$> [(run2, Emit string (fetchcomplete externalItem));
                       (run1, Emit string complete);
                       (run2, Emit string complete)]) = true →
           nextTimer w1' ∉ timers w3).
Proof.
  eexists _, _, _, _, _.
  split; [vm_compute; reflexivity|].
  split; [vm_compute; reflexivity|].
  split; [vm_compute; reflexivity|].
  eapply (second_run_orphans_first_timer string Js.stringTruthy id glob string id load
            html parse engineProps discovered titleFailure exitCodeOf
            "https://site.test/" "https://other.test:8443/docs" config config
            initialWorld _ _ _ _ _
            [(_, Discover string firstDraw homeHtml homeItem)]).
  - reflexivity.
  - reflexivity.
  - vm_compute. reflexivity.
  - apply Forall_cons. split; [|apply Forall_nil_2]. split; reflexivity.
  - vm_compute. reflexivity.
  - vm_compute. reflexivity.
  - repeat (apply Forall_cons; split; [by (left + right)|]). apply Forall_nil_2.
Defined.


(** *** The further properties on the small site *)

Local Abbreviation siteRun := (Build_Run string config siteEngine).

Lemma root_url_of_run_on_site :
  ∃ run w',
    crawlSite "https://other.test:8443/docs" config initialWorld = (Js.Normal run, w')
    ∧ ∃ p h,
        protocol (parse "https://other.test:8443/docs") = Some p ∧ p ≠ ""
        ∧ hostname (parse "https://other.test:8443/docs") = Some h ∧ h ≠ ""
        ∧ rootUrl (runConfig string run)
          = Some (p ++ "//" ++ h
                  ++ match port (parse "https://other.test:8443/docs") with
                     | Some (String c q) => ":" ++ String c q
                     | _ => ""
                     end)
        ∧ strictCiphers (runConfig string run) = strictCiphers config
        ∧ simplecrawlerConfig (runConfig string run) = simplecrawlerConfig config
        ∧ reportSpoolInterval (runConfig string run) = reportSpoolInterval config
        ∧ excludePatterns (runConfig string run) = excludePatterns config
        ∧ includePatterns (runConfig string run) = includePatterns config
        ∧ additionalPaths (runConfig string run) = additionalPaths config
        ∧ titlePattern (runConfig string run) = titlePattern config.
Proof.
  eexists _, _. split; [vm_compute; reflexivity|].
  eapply (root_url_of_run string Js.stringTruthy glob load html parse engineProps
            discovered "https://other.test:8443/docs" config initialWorld).
  vm_compute. reflexivity.
Defined.

Lemma tls_settings_outlive_the_run_on_site :
  ∃ run w',
    crawlSite "https://site.test/" tunedConfig initialWorld = (Js.Normal run, w')
    ∧ tlsDefaultCiphers w'
      = (if strictCiphers tunedConfig then tlsDefaultCiphers initialWorld else Some "ALL")
    ∧ env w'
      = (if ignoreInvalidSSL string tunedConfig
         then <["NODE_TLS_REJECT_UNAUTHORIZED" := "0"]> (env initialWorld)
         else env initialWorld)
    ∧ ∃ w'',
        runInterleaved string Js.stringTruthy id string id load html discovered
          titleFailure exitCodeOf
          [(siteRun, Discover string firstDraw homeHtml homeItem);
           (siteRun, Emit string complete)] w'
        = (Js.Normal tt, w'')
        ∧ tlsDefaultCiphers w'' = tlsDefaultCiphers w'
        ∧ env w'' = env w'.
Proof.
  eexists _, _. split; [vm_compute; reflexivity|].
  eapply (tls_settings_outlive_the_run string Js.stringTruthy id glob string id load
            html parse engineProps discovered titleFailure exitCodeOf
            "https://site.test/" tunedConfig initialWorld).
  - vm_compute. reflexivity.
  - repeat (apply Forall_cons; split; [left; reflexivity|]). apply Forall_nil_2.
Defined.

Lemma spool_timer_needs_positive_interval_on_site :
  ∃ run w',
    crawlSite "https://site.test/" plainConfig initialWorld = (Js.Normal run, w')
    ∧ List.filter isSetInterval (added initialWorld w')
      = (if (0 <? reportSpoolInterval plainConfig)%Z
         then [SetInterval (nextTimer initialWorld) (reportSpoolInterval plainConfig)]
         else [])
    ∧ ((reportSpoolInterval plainConfig ≤ 0)%Z → SameTimers initialWorld w').
Proof.
  eexists _, _. split; [vm_compute; reflexivity|].
  eapply (spool_timer_needs_positive_interval string Js.stringTruthy glob load html
            parse engineProps discovered "https://site.test/" plainConfig initialWorld).
  vm_compute. reflexivity.
Defined.

Lemma additional_paths_are_queued_in_order_on_site :
  ∃ run w',
    crawlSite "https://site.test/" tunedConfig initialWorld = (Js.Normal run, w')
    ∧ ∃ before after,
        added initialWorld w'
        = (before ++ [NewSimplecrawler "https://site.test/"]
           ++ (QueueURL <$> default [] (additionalPaths tunedConfig))
           ++ after ++ [Start])%list
        ∧ Forall (fun c => isQueueURL c = false) (before ++ after)%list.
Proof.
  eexists _, _. split; [vm_compute; reflexivity|].
  eapply (additional_paths_are_queued_in_order string Js.stringTruthy glob load html
            parse engineProps discovered "https://site.test/" tunedConfig initialWorld).
  vm_compute. reflexivity.
Defined.

Lemma injected_settings_reach_the_engine_on_site :
  (props (injectCrawlerConfig string tunedConfig siteEngine) !! "host"
   = Some (Js.Str "docs.test")
   ∧ props (injectCrawlerConfig string tunedConfig siteEngine) !! "userAgent" = None)
  ∧ (props (injectCrawlerConfig string listLikeConfig siteEngine) !! "0"
     = Some Js.Undefined
     ∧ props (injectCrawlerConfig string listLikeConfig siteEngine) !! "1"
       = Some (Js.Str "one")
     ∧ props (injectCrawlerConfig string listLikeConfig siteEngine) !! "maxDepth" = None
     ∧ props (injectCrawlerConfig string listLikeConfig siteEngine) !! "host"
       = Some (Js.Str "site.test")).
Proof.
  split.
  - destruct (injected_settings_reach_the_engine string tunedConfig siteEngine)
      as [Hplain _]; [compute_done|].
    destruct (Hplain eq_refl) as [Hown Hother]. split.
    + apply Hown. compute_done.
    + rewrite Hother; [reflexivity | compute_done].
  - destruct (injected_settings_reach_the_engine string listLikeConfig siteEngine)
      as [_ Hlike]; [compute_done|].
    destruct (Hlike eq_refl) as (_ & Hindex & _ & Hnamed).
    split; [|split; [|split]].
    + apply (Hindex 0%nat). compute_done.
    + apply (Hindex 1%nat). compute_done.
    + rewrite Hnamed; reflexivity.
    + rewrite Hnamed; reflexivity.
Defined.

Lemma configured_host_decides_same_host_on_site :
  (∃ run w',
     crawlSite "https://site.test/" tunedConfig initialWorld = (Js.Normal run, w')
     ∧ (SameHost (runEngine string run) docsItem ↔ host docsItem = "docs.test"))
  ∧ (∃ run w',
       crawlSite "https://site.test/" listLikeConfig initialWorld = (Js.Normal run, w')
       ∧ (SameHost (runEngine string run) docsItem
          ↔ engineProps "https://site.test/" !! "host" = Some (Js.Str (host docsItem)))).
Proof.
  split.
  - eexists _, _. split; [vm_compute; reflexivity|].
    refine (proj1 (proj1 (configured_host_decides_same_host string Js.stringTruthy glob
                            load html parse engineProps discovered "https://site.test/"
                            tunedConfig initialWorld _ _ docsItem _ _) eq_refl)
                  "docs.test" _).
    + vm_compute. reflexivity.
    + compute_done.
    + compute_done.
  - eexists _, _. split; [vm_compute; reflexivity|].
    refine (proj2 (configured_host_decides_same_host string Js.stringTruthy glob
                     load html parse engineProps discovered "https://site.test/"
                     listLikeConfig initialWorld _ _ docsItem _ _) eq_refl).
    + vm_compute. reflexivity.
    + compute_done.
Defined.

Lemma returned_urls_are_the_other_candidates_on_site :
  ∃ l,
    fst (discoverOnSite config siteEngine lastDraw homeHtml homeItem initialWorld)
    = Js.Normal l
    ∧ (∀ u, Some u ∈ l ↔
            u ∈ discovered (html (Cheerio.remove (pageOf string id load homeHtml))) homeItem
            ∧ mailtoMatcher u = false)
    ∧ (None ∈ l ↔
       ∃ u, u ∈ discovered (html (Cheerio.remove (pageOf string id load homeHtml))) homeItem
            ∧ mailtoMatcher u = true)
    ∧ (length l
       ≤ length (discovered (html (Cheerio.remove (pageOf string id load homeHtml)))
                            homeItem))%nat.
Proof.
  apply (returned_urls_are_the_other_candidates string Js.stringTruthy id string id load
           html discovered titleFailure).
  - by exists "; charset=utf-8".
  - reflexivity.
Defined.

Lemma url_containing_mailto_is_dropped_on_site :
  Some ("https://x/contact?to=" ++ "MailTo:a@b.com")
  ∉ [Some "https://x/y"; None].
Proof.
  apply (url_containing_mailto_is_dropped string Js.stringTruthy id string id load html
           discovered titleFailure config siteEngine lastDraw homeHtml homeItem
           initialWorld).
  - reflexivity.
  - reflexivity.
Defined.

Lemma page_without_token_is_parsed_as_is_on_site :
  pageOf string id load "<p>x</p>" = load "<p>x</p>".
Proof.
  apply (page_without_token_is_parsed_as_is string id load "<p>x</p>").
  intros before after Heq.
  do 9 (destruct before as [|? before]; [vm_compute in Heq; discriminate Heq|]).
  vm_compute in Heq. discriminate Heq.
Defined.

Lemma page_callbacks_only_record_calls_on_site :
  ∃ cs,
    runInterleaved string Js.stringTruthy id string id load html discovered
      titleFailure exitCodeOf
      [(siteRun, Discover string firstDraw homeHtml homeItem);
       (siteRun, Emit string (fetch404 externalItem));
       (siteRun, Filter string homeItem)] initialWorld
    = (Js.Normal tt, appendCalls cs initialWorld)
    ∧ Forall (fun c => isLifecycle c = false) cs.
Proof.
  apply (page_callbacks_only_record_calls string Js.stringTruthy id glob string id load
           html discovered titleFailure exitCodeOf).
  repeat (apply Forall_cons; split; [split; [left; reflexivity | reflexivity]|]).
  apply Forall_nil_2.
Defined.

Lemma single_run_cancels_its_timer_on_site :
  ∃ run w1 w2 w3,
    crawlSite "https://site.test/" config initialWorld = (Js.Normal run, w1)
    ∧ runInterleaved string Js.stringTruthy id string id load html discovered
        titleFailure exitCodeOf
        [(run, Discover string firstDraw homeHtml homeItem);
         (run, Emit string (fetchcomplete homeItem))] w1
      = (Js.Normal tt, w2)
    ∧ invoke string Js.stringTruthy id string id load html discovered titleFailure
        exitCodeOf run (Emit string complete) w2
      = (Js.Normal tt, w3)
    ∧ timers w3 = timers initialWorld
    ∧ added w2 w3 = [ClearInterval (nextTimer initialWorld); FindErrors; Report].
Proof.
  eexists _, _, _, _.
  split; [vm_compute; reflexivity|].
  split; [vm_compute; reflexivity|].
  split; [vm_compute; reflexivity|].
  eapply (single_run_cancels_its_timer string Js.stringTruthy id glob string id load
            html parse engineProps discovered titleFailure exitCodeOf
            "https://site.test/" config initialWorld _ _ _ _
            [(_, Discover string firstDraw homeHtml homeItem);
             (_, Emit string (fetchcomplete homeItem))]).
  - simpl. apply not_elem_of_empty.
  - reflexivity.
  - vm_compute. reflexivity.
  - repeat (apply Forall_cons; split; [split; reflexivity|]). apply Forall_nil_2.
  - vm_compute. reflexivity.
  - vm_compute. reflexivity.
Defined.

Lemma spoolless_run_cancels_the_other_timer_on_site :
  ∃ run1 w1 run2 w2 w3,
    crawlSite "https://site.test/" config initialWorld = (Js.Normal run1, w1)
    ∧ crawlSite "https://other.test:8443/docs" plainConfig w1 = (Js.Normal run2, w2)
    ∧ invoke string Js.stringTruthy id string id load html discovered titleFailure
        exitCodeOf run2 (Emit string complete) w2
      = (Js.Normal tt, w3)
    ∧ nextTimer initialWorld ∈ timers w2
    ∧ (nextTimer initialWorld ∉ timers w3)
    ∧ added w2 w3 = [ClearInterval (nextTimer initialWorld); FindErrors; Report].
Proof.
  eexists _, _, _, _, _.
  split; [vm_compute; reflexivity|].
  split; [vm_compute; reflexivity|].
  split; [vm_compute; reflexivity|].
  eapply (spoolless_run_cancels_the_other_timer string Js.stringTruthy id glob string id
            load html parse engineProps discovered titleFailure exitCodeOf
            "https://site.test/" "https://other.test:8443/docs" config plainConfig
            initialWorld).
  - reflexivity.
  - discriminate.
  - vm_compute. reflexivity.
  - vm_compute. reflexivity.
  - vm_compute. reflexivity.
Defined.

Lemma falsy_exclude_match_does_not_exclude_on_site :
  byPrefix "" "/private/secret" (rootUrl tunedConfig) = true
  ∧ "" ∈ [""]
  ∧ allowedBy
      (fetchConditions
         (initIncludeExcludePatterns string Js.stringTruthy byPrefix tunedConfig siteEngine))
      (item "/private/secret" "site.test" "") initialWorld
    = (Js.Normal true, initialWorld).
Proof.
  apply (falsy_exclude_match_does_not_exclude string Js.stringTruthy byPrefix tunedConfig
           siteEngine (item "/private/secret" "site.test" "") initialWorld [""] "").
  - reflexivity.
  - reflexivity.
  - reflexivity.
  - reflexivity.
  - reflexivity.
Defined.

Lemma null_entry_is_registered_as_link_on_site :
  ∃ l w',
    discoverOnSite config siteEngine firstDraw homeHtml homeItem initialWorld
    = (Js.Normal l, w')
    ∧ ∃ w'',
        on exitCodeOf (discoverycomplete homeItem l) w' = (Js.Normal tt, w'')
        ∧ added w' w'' = (fun target => RegisterLink (url homeItem) target) <$> l
        ∧ RegisterLink (url homeItem) None ∈ added w' w''.
Proof.
  eexists _, _. split; [vm_compute; reflexivity|].
  eapply (null_entry_is_registered_as_link string Js.stringTruthy id string id load html
            discovered titleFailure exitCodeOf config siteEngine firstDraw homeHtml
            homeItem initialWorld _ _ "mailto:a@b.com").
  - by exists "; charset=utf-8".
  - reflexivity.
  - vm_compute. constructor.
  - reflexivity.
  - vm_compute. reflexivity.
Defined.

Lemma exclude_wins_over_include_on_site :
  allowedBy
    (fetchConditions
       (initIncludeExcludePatterns string Js.stringTruthy glob overlapConfig siteEngine))
    (item "/docs/internal/plan" "site.test" "") initialWorld
  = (Js.Normal false,
     record (LogIgnore (item "/docs/internal/plan" "site.test" "")) initialWorld).
Proof.
  apply (exclude_wins_over_include string Js.stringTruthy glob overlapConfig siteEngine
           (item "/docs/internal/plan" "site.test" "") initialWorld "/docs/internal/*").
  - reflexivity.
  - intros q Hq. simpl in Hq. apply list_elem_of_In in Hq. simpl in Hq.
    destruct Hq as [<-|[]]. reflexivity.
  - simpl. apply list_elem_of_here.
  - reflexivity.
Defined.

Example overlapping_include_also_matches :
  glob "/docs/*" "/docs/internal/plan" None = true.
Proof. reflexivity. Qed.

End OnSite.

End Crawler.
